(** * The distance graph of PyGMIN's double-ended connect

    A shallow embedding of [pygmin/landscape/_distance_graph.py] (class
    [_DistanceGraph]) together with the properties of its admission,
    caching, merging and consistency-repair operations.

    Conventions of the embedding.
    - A [Minimum] is identified with its database id: the class hashes and
      compares by [_id], so every dictionary keyed by minima is keyed by ids.
    - Python floats are modelled by exact rationals [Q]; NaN, infinities and
      rounding are outside the model.  Comparisons are the boolean tests the
      code performs ([w < 1e-6], [w < 1e-10], [weight_sum > 10e-6]).
    - [networkx.Graph] is modelled by its adjacency dictionary
      [adj : node -> (neighbour -> weight)]; the only edge attribute the
      code ever stores is ["weight"].
    - A method of the class is a computation in the monad [M]: it reads and
      mutates [self] and either returns a value or raises.  The state
      reached when the exception is raised is kept, as in Python. *)

From Stdlib Require Import QArith Lia.
From stdpp Require Import gmap list fin_maps.

(** ** Numbers *)

Abbreviation Minimum := nat (only parsing).

(** [x < y] on floats. *)
Definition Qltb (x y : Q) : bool := negb (Qle_bool y x).

(** Python's [min(a, b)]: the first argument unless the second is smaller. *)
Definition pymin (a b : Q) : Q := if Qltb b a then b else a.

(** Python's [sum(l)]. *)
Definition pysum (l : list Q) : Q := foldl Qplus 0%Q l.

(** ** networkx.Graph *)

Module nx.

(** Weighted undirected graph: [adj !! u] is the dictionary [G[u]]. *)
Abbreviation Graph := (gmap nat (gmap nat Q)) (only parsing).

Definition has_node (G : Graph) (n : nat) : bool :=
  match G !! n with Some _ => true | None => false end.

(** [G.nodes()] *)
Definition nodes (G : Graph) : list nat := (map_to_list G).*1.

(** [G[u][v]["weight"]]; [None] stands for the [KeyError]. *)
Definition weight (G : Graph) (u v : nat) : option Q :=
  match G !! u with Some nbrs => nbrs !! v | None => None end.

Definition has_edge (G : Graph) (u v : nat) : bool :=
  match weight G u v with Some _ => true | None => false end.

Definition add_node (n : nat) (G : Graph) : Graph :=
  match G !! n with Some _ => G | None => <[n := ∅]> G end.

(** [G.add_edge(u, v, weight=w)]: missing end points are created, the
    attribute of an existing edge is overwritten, both directions share
    the datum. *)
Definition add_edge (u v : nat) (w : Q) (G : Graph) : Graph :=
  alter (insert u w) v (alter (insert v w) u (add_node v (add_node u G))).

(** [G.remove_node(n)]; [None] stands for [NetworkXError]. *)
Definition remove_node (n : nat) (G : Graph) : option Graph :=
  match G !! n with
  | None => None
  | Some nbrs =>
      Some (delete n (foldr (λ u, alter (delete n) u) G (map_to_list nbrs).*1))
  end.

(** [G.edges()]: every node in turn reports the neighbours that have not
    reported yet, so that an edge is listed once. *)
Fixpoint edges_from (l : list (nat * gmap nat Q)) (seen : gset nat)
  : list (nat * nat) :=
  match l with
  | [] => []
  | (n, nbrs) :: l' =>
      ((λ v, (n, v)) <$> filter (λ v, v ∉ seen) (map_to_list nbrs).*1)
        ++ edges_from l' ({[n]} ∪ seen)
  end.

Definition edges (G : Graph) : list (nat * nat) :=
  edges_from (map_to_list G) ∅.

(** [nx.get_edge_attributes(G, "weight")] *)
Definition get_edge_attributes (G : Graph) : gmap (nat * nat) Q :=
  list_to_map (omap (λ e, (λ w, (e, w)) <$> weight G e.1 e.2) (edges G)).

(** Adjacency of an unweighted graph, as the transition-state graph. *)
Abbreviation Adj := (gmap nat (gset nat)) (only parsing).

Definition neighbours (G : Adj) (v : nat) : gset nat := default ∅ (G !! v).

(** One level of the breadth-first search. *)
Definition bfs_level (G : Adj) (seen : gset nat) : gset nat :=
  seen ∪ ⋃ (neighbours G <$> elements seen).

Fixpoint bfs (G : Adj) (fuel : nat) (seen : gset nat) : gset nat :=
  match fuel with
  | O => seen
  | S k => bfs G k (bfs_level G seen)
  end.

(** [nx.node_connected_component(G, n)]; [None] stands for the
    [KeyError] raised when [n] is not a node of [G]. *)
Definition node_connected_component (G : Adj) (n : nat) : option (gset nat) :=
  match G !! n with
  | None => None
  | Some _ => Some (bfs G (size G) {[n]})
  end.

(** Symmetric adjacency whose neighbours are nodes: the representation
    invariant networkx maintains. *)
Definition wf (G : Graph) : Prop :=
  ∀ u v w, weight G u v = Some w → weight G v u = Some w.

End nx.

(** ** The entity store *)

(** A row of the distance table. *)
Record Distance := mkDistance {
  _minimum1_id : nat;
  _minimum2_id : nat;
  dist : Q
}.

Inductive tx_event := TxBegin | TxCommit | TxRollback.

(** Modelled from the spec: the entity store ([pygmin.storage.Database]) is
    not part of the sources at hand.  It offers [distances()], [setDistance]
    and a transaction with [begin()/commit()/rollback()]; a rollback
    restores the table as it was at [begin()]. *)
Record Database := mkDatabase {
  table : list Distance;
  saved : option (list Distance);
  tx_log : list tx_event
}.

Module db.

Definition distances (d : Database) : list Distance := table d.

Definition setDistance (x : Q) (m1 m2 : nat) (d : Database) : Database :=
  {| table := table d ++ [mkDistance m1 m2 x];
     saved := saved d; tx_log := tx_log d |}.

Definition begin (d : Database) : Database :=
  {| table := table d; saved := Some (table d);
     tx_log := tx_log d ++ [TxBegin] |}.

Definition commit (d : Database) : Database :=
  {| table := table d; saved := None;
     tx_log := tx_log d ++ [TxCommit] |}.

Definition rollback (d : Database) : Database :=
  {| table := default (table d) (saved d); saved := None;
     tx_log := tx_log d ++ [TxRollback] |}.

(** [setDistanceBulk(items)]: one row per buffered pair. *)
Definition setDistanceBulk (items : list (nat * nat * Q)) (d : Database)
  : Database :=
  {| table := table d ++ ((λ i, mkDistance i.1.1 i.1.2 i.2) <$> items);
     saved := saved d; tx_log := tx_log d |}.

End db.

(** ** The object *)

(** A call of [logger.warning] in [checkGraph], with the values it
    prints; [w_path_weight] is absent from the second kind of warning. *)
Record warning := mkWarning {
  w_are_connected : bool;
  w_weight : Q;
  w_dist : Q;
  w_path_weight : option Q;
  w_min1 : nat;
  w_min2 : nat
}.

(** The fields of [_DistanceGraph].  [mindist] is the external alignment
    routine, [None] when it raises.  [mindist_calls] and [warnings] are
    observers: the calls made to [mindist] and the warnings logged. *)
Record DistanceGraph := mkDistanceGraph {
  database : Database;
  graph : gmap nat (gset nat);
  mindist : nat → nat → option Q;
  Gdist : gmap nat (gmap nat Q);
  distance_map : gmap (nat * nat) Q;
  defer_database_update : bool;
  new_distances : gmap (nat * nat) Q;
  db_update_min : nat;
  mindist_calls : list (nat * nat);
  warnings : list warning
}.

Definition infinite_weight : Q := 1e20%Q.

Definition with_database (f : Database → Database) (s : DistanceGraph) :=
  mkDistanceGraph (f (database s)) (graph s) (mindist s) (Gdist s)
    (distance_map s) (defer_database_update s) (new_distances s)
    (db_update_min s) (mindist_calls s) (warnings s).

Definition with_Gdist (f : gmap nat (gmap nat Q) → gmap nat (gmap nat Q))
  (s : DistanceGraph) :=
  mkDistanceGraph (database s) (graph s) (mindist s) (f (Gdist s))
    (distance_map s) (defer_database_update s) (new_distances s)
    (db_update_min s) (mindist_calls s) (warnings s).

Definition with_distance_map (f : gmap (nat * nat) Q → gmap (nat * nat) Q)
  (s : DistanceGraph) :=
  mkDistanceGraph (database s) (graph s) (mindist s) (Gdist s)
    (f (distance_map s)) (defer_database_update s) (new_distances s)
    (db_update_min s) (mindist_calls s) (warnings s).

Definition with_new_distances (f : gmap (nat * nat) Q → gmap (nat * nat) Q)
  (s : DistanceGraph) :=
  mkDistanceGraph (database s) (graph s) (mindist s) (Gdist s)
    (distance_map s) (defer_database_update s) (f (new_distances s))
    (db_update_min s) (mindist_calls s) (warnings s).

Definition with_mindist_calls (f : list (nat * nat) → list (nat * nat))
  (s : DistanceGraph) :=
  mkDistanceGraph (database s) (graph s) (mindist s) (Gdist s)
    (distance_map s) (defer_database_update s) (new_distances s)
    (db_update_min s) (f (mindist_calls s)) (warnings s).

Definition with_warnings (f : list warning → list warning)
  (s : DistanceGraph) :=
  mkDistanceGraph (database s) (graph s) (mindist s) (Gdist s)
    (distance_map s) (defer_database_update s) (new_distances s)
    (db_update_min s) (mindist_calls s) (f (warnings s)).

(** [__init__] *)
Definition init (database : Database) (graph : gmap nat (gset nat))
  (mindist : nat → nat → option Q) (defer_database_update : bool)
  (db_update_min : nat) : DistanceGraph :=
  mkDistanceGraph database graph mindist ∅ ∅ defer_database_update ∅
    db_update_min [] [].

(** ** Computations on [self] *)

Inductive exn :=
  KeyError | AttributeError | NetworkXError | TypeError | MindistError.

Inductive result (A : Type) :=
| Ok (a : A)
| Raise (e : exn).
Arguments Ok {A} a.
Arguments Raise {A} e.

Definition M (A : Type) : Type := DistanceGraph → result A * DistanceGraph.

#[global] Instance M_ret : MRet M := λ A a self, (Ok a, self).

#[global] Instance M_bind : MBind M := λ A B f m self,
  match m self with
  | (Ok a, self') => f a self'
  | (Raise e, self') => (Raise e, self')
  end.

Definition raise {A} (e : exn) : M A := λ self, (Raise e, self).

Definition gets {A} (f : DistanceGraph → A) : M A := λ self, (Ok (f self), self).

Definition modify (f : DistanceGraph → DistanceGraph) : M unit :=
  λ self, (Ok tt, f self).

(** Subscripting: [None] is a [KeyError]. *)
Definition getitem {A} (o : option A) : M A :=
  match o with Some a => mret a | None => raise KeyError end.

(** [for x in l: body(x)] *)
Fixpoint for_ {A} (l : list A) (body : A → M unit) : M unit :=
  match l with
  | [] => mret tt
  | x :: l' => body x ;; for_ l' body
  end.

(** [try: body  except: handler; raise] followed by [orelse] *)
Definition try_except_reraise {A} (body : M A)
  (handler orelse : DistanceGraph → DistanceGraph) : M A :=
  λ self,
    match body self with
    | (Ok a, self') => (Ok a, orelse self')
    | (Raise e, self') => (Raise e, handler self')
    end.

(** ** The methods of [_DistanceGraph] *)

Definition distToWeight (dist : Q) : Q := (dist * dist)%Q.

Definition _setDist (min1 min2 : Minimum) (dist : Q) : M unit :=
  defer ← gets defer_database_update;
  (if defer : bool
   then modify (with_new_distances (insert (min1, min2) dist))
   else modify (with_database (db.setDistance dist min1 min2))) ;;
  modify (with_distance_map (insert (min1, min2) dist)).

(** A pure function of [self.distance_map]; the branch guarded by
    [if False] is dead. *)
Definition _getDistNoCalc (self : DistanceGraph) (min1 min2 : Minimum)
  : option Q :=
  match distance_map self !! (min1, min2) with
  | Some dist => Some dist
  | None =>
      match distance_map self !! (min2, min1) with
      | Some dist => Some dist
      | None => None
      end
  end.

(** [self.mindist(min1.coords, min2.coords)], recorded in [mindist_calls]. *)
Definition call_mindist (min1 min2 : Minimum) : M Q :=
  modify (with_mindist_calls (λ l, l ++ [(min1, min2)])) ;;
  r ← gets (λ self, mindist self min1 min2);
  match r with
  | Some dist => mret dist
  | None => raise MindistError
  end.

Definition getDist (min1 min2 : Minimum) : M Q :=
  dist ← gets (λ self, _getDistNoCalc self min1 min2);
  match dist with
  | Some dist => mret dist
  | None =>
      dist ← call_mindist min1 min2;
      _setDist min1 min2 dist ;;
      mret dist
  end.

Definition setTransitionStateConnection (min1 min2 : Minimum) : M unit :=
  let weight := 0%Q in
  modify (with_Gdist (nx.add_edge min1 min2 weight)).

(** The two loops of [_addMinimum], one turn each. *)
Definition _addMinimum_connected (m m2 : Minimum) : M unit :=
  G ← gets Gdist;
  if nx.has_node G m2 then setTransitionStateConnection m m2 else mret tt.

Definition _addMinimum_distance (m m2 : Minimum) : M unit :=
  G ← gets Gdist;
  if negb (nx.has_edge G m m2) then
    dist ← getDist m m2;
    let weight := distToWeight dist in
    modify (with_Gdist (nx.add_edge m m2 weight))
  else mret tt.

Definition _addMinimum (m : Minimum) : M unit :=
  modify (with_Gdist (nx.add_node m)) ;;
  cc ← (λ self, getitem (nx.node_connected_component (graph self) m) self);
  for_ (elements cc) (_addMinimum_connected m) ;;
  nodes ← gets (λ self, nx.nodes (Gdist self));
  for_ nodes (_addMinimum_distance m).

Definition addMinimum (m : Minimum) : M unit :=
  modify (with_database db.begin) ;;
  try_except_reraise
    (G ← gets Gdist;
     if negb (nx.has_node G m) then _addMinimum m else mret tt)
    (with_database db.rollback)
    (with_database db.commit).

Definition removeEdge (min1 min2 : Minimum) : M bool :=
  G ← gets Gdist;
  (if nx.has_edge G min1 min2 then
     w ← getitem (nx.weight G min1 min2);
     if negb (Qltb w 1e-6%Q)
     then modify (with_Gdist (nx.add_edge min1 min2 infinite_weight))
     else mret tt
   else mret tt) ;;
  mret true.

Definition _initializeDistances : M unit :=
  rows ← gets (λ self, db.distances (database self));
  for_ rows (λ d,
    modify (with_distance_map
              (insert (_minimum1_id d, _minimum2_id d) (dist d)))).

(** One turn of the loop of [_addRelevantMinima]; [count] and [naccept]
    only feed the log and are left out. *)
Definition _addRelevantMinima_test (minstart minend : Minimum)
  (start_end_distance : Q) (m : Minimum) : M unit :=
  d1 ← gets (λ self, _getDistNoCalc self m minstart);
  match d1 with
  | None => mret tt
  | Some d1 =>
      if Qltb start_end_distance d1 then mret tt else
      d2 ← gets (λ self, _getDistNoCalc self m minend);
      match d2 with
      | None => mret tt
      | Some d2 =>
          if Qltb start_end_distance d2 then mret tt else
          addMinimum m
      end
  end.

Definition _addRelevantMinima (minstart minend : Minimum) : M unit :=
  start_end_distance ← getDist minstart minend;
  nodes ← gets (λ self, (map_to_list (graph self)).*1);
  for_ nodes (_addRelevantMinima_test minstart minend start_end_distance).

(** [self.add_edge] in the source is not a method of the class: reaching
    it raises [AttributeError].  The neighbours of [min2] are read while
    only edges at [min1] are rewritten, so iterating over the dictionary
    reads what it held when the loop started. *)
Definition mergeMinima_edge (min1 : Minimum) (item : nat * Q) : M unit :=
  let '(m, data) := item in
  if bool_decide (m = min1) then mret tt else
  G ← gets Gdist;
  (if negb (nx.has_edge G min1 m) then raise AttributeError else mret tt) ;;
  let w2 := data in
  w1 ← (λ self, getitem (nx.weight (Gdist self) min1 m) self);
  let wnew := pymin w1 w2 in
  modify (with_Gdist (nx.add_edge min1 m wnew)).

Definition mergeMinima (min1 min2 : Minimum) : M unit :=
  nbrs ← (λ self, getitem (Gdist self !! min2) self);
  for_ (map_to_list nbrs) (mergeMinima_edge min1) ;;
  G ← (λ self, getitem (nx.remove_node min2 (Gdist self)) self);
  modify (with_Gdist (λ _, G)).

(** Modelled from the spec: [pygmin.landscape.Graph.areConnected] is not
    part of the sources at hand.  Two minima are connected when the second
    lies in the connected component of the first. *)
Definition areConnected (G : gmap nat (gset nat)) (min1 min2 : Minimum) : bool :=
  match nx.node_connected_component G min1 with
  | Some cc => bool_decide (min2 ∈ cc)
  | None => false
  end.

Section ShortestPath.

(** [nx.shortest_path(G, source, target, weight="weight")], a routine of
    the graph library; [None] stands for [NetworkXNoPath]. *)
Variable nx_shortest_path :
  gmap nat (gmap nat Q) → nat → nat → option (list nat).

(** [[f(path[i], path[i+1]) for i in range(len(path)-1)]] *)
Fixpoint path_weights (G : gmap nat (gmap nat Q)) (path : list nat)
  : option (list Q) :=
  match path with
  | u :: (v :: _) as rest =>
      w ← nx.weight G u v;
      ws ← path_weights G rest;
      Some (w :: ws)
  | _ => Some []
  end.

Definition shortestPath (min1 min2 : Minimum)
  : M (option (list nat) * option (list Q)) :=
  G ← gets Gdist;
  match nx_shortest_path G min1 min2 with
  | None => mret (None, None)
  | Some path =>
      weights ← getitem (path_weights G path);
      mret (Some path, Some weights)
  end.

(** One turn of the loop of [checkGraph] over the edge [e]; [allok] is
    threaded through, [count] only feeds the log and is left out. *)
Definition checkGraph_edge (weights : gmap (nat * nat) Q)
  (allok : bool) (e : nat * nat) : M bool :=
  are_connected ← gets (λ self, areConnected (graph self) e.1 e.2);
  we ← getitem (weights !! e);
  let zero_weight := Qltb we 1e-10%Q in
  allok ←
    (if are_connected && negb zero_weight then
       '(path, path_weight) ← shortestPath e.1 e.2;
       allok ←
         match path_weight with
         | None => raise TypeError
         | Some path_weight =>
             let weight_sum := pysum path_weight in
             if Qltb 10e-6%Q weight_sum then
               dist ← getDist e.1 e.2;
               modify (with_warnings (λ l,
                 l ++ [mkWarning are_connected we dist (Some weight_sum)
                         e.1 e.2])) ;;
               mret false
             else mret allok
         end;
       setTransitionStateConnection e.1 e.2 ;;
       mret allok
     else mret allok);
  if negb are_connected && zero_weight then
    dist ← getDist e.1 e.2;
    modify (with_warnings (λ l,
      l ++ [mkWarning are_connected we dist None e.1 e.2])) ;;
    let w := distToWeight dist in
    modify (with_Gdist (nx.add_edge e.1 e.2 w)) ;;
    mret false
  else mret allok.

Fixpoint checkGraph_loop (weights : gmap (nat * nat) Q)
  (allok : bool) (es : list (nat * nat)) : M bool :=
  match es with
  | [] => mret allok
  | e :: es' =>
      allok ← checkGraph_edge weights allok e;
      checkGraph_loop weights allok es'
  end.

Definition checkGraph : M bool :=
  let allok := true in
  weights ← gets (λ self, nx.get_edge_attributes (Gdist self));
  es ← gets (λ self, nx.edges (Gdist self));
  checkGraph_loop weights allok es.

End ShortestPath.

Definition replaceTransitionStateGraph (graph : gmap nat (gset nat)) : M unit :=
  modify (λ self,
    mkDistanceGraph (database self) graph (mindist self) (Gdist self)
      (distance_map self) (defer_database_update self) (new_distances self)
      (db_update_min self) (mindist_calls self) (warnings self)).

(** [updateDatabase(force)]: flush the buffered distances to the store once
    there are enough of them, or when forced. *)
Definition updateDatabase (force : bool) : M unit :=
  nnewdist ← gets (λ self, length (map_to_list (new_distances self)));
  if Nat.eqb nnewdist 0 then mret tt else
  small ← gets (λ self, Nat.ltb nnewdist (db_update_min self));
  if negb force && small then mret tt else
  modify (λ self,
    with_database (db.setDistanceBulk (map_to_list (new_distances self))) self) ;;
  modify (with_new_distances (λ _, ∅)).

(** [initialize(minstart, minend, use_all_min, use_limited_min,
    load_no_distances)] *)
Definition initialize (minstart minend : Minimum)
  (use_all_min use_limited_min load_no_distances : bool) : M unit :=
  (if negb load_no_distances then _initializeDistances else mret tt) ;;
  dist ← getDist minstart minend;
  addMinimum minstart ;;
  addMinimum minend ;;
  if negb load_no_distances then
    if use_all_min then
      nodes ← gets (λ self, (map_to_list (graph self)).*1);
      for_ nodes addMinimum
    else if use_limited_min then _addRelevantMinima minstart minend
    else mret tt
  else mret tt.

(** ** Scenarios

    Small landscapes on which the operations are run. *)
Module scenario.

(** A distance routine: the sum of the two ids; it raises on the pair
    (5, 1). *)
Definition mindist_sum (a b : nat) : option Q :=
  if decide (a + b = 6) then None else Some (inject_Z (Z.of_nat (a + b))).

(** Minima 1 and 2 joined by a transition state, 3 and 5 on their own;
    7 is not in the graph. *)
Definition ts_graph : gmap nat (gset nat) :=
  {[ 1 := {[2]}; 2 := {[1]}; 3 := ∅; 5 := ∅ ]}.

Definition fresh : DistanceGraph :=
  init (mkDatabase [] None []) ts_graph mindist_sum true 300.

Definition run {A} (m : M A) (self : DistanceGraph) : DistanceGraph :=
  (m self).2.

(** After admitting 1 and 2, then 3. *)
Definition admitted_12 : DistanceGraph :=
  run (addMinimum 1 ;; addMinimum 2) fresh.

Definition admitted_123 : DistanceGraph := run (addMinimum 3) admitted_12.

(** A store that holds the distances of 3 and 4 to the end points 1 and
    2, but not the distance between 3 and 4; the cache is warmed from it
    and the end points are admitted. *)
Definition stored : Database :=
  mkDatabase [mkDistance 1 2 10; mkDistance 3 1 4; mkDistance 3 2 5;
              mkDistance 4 1 5; mkDistance 4 2 6] None [].

Definition four_minima : gmap nat (gset nat) :=
  {[ 1 := ∅; 2 := ∅; 3 := ∅; 4 := ∅ ]}.

Definition cold : DistanceGraph :=
  init stored four_minima mindist_sum true 300.


(** Minima 1, 2 and 3 admitted, after which a transition state joining
    3 to 1 is reported to the connectivity graph only. *)
Definition ts_graph_joined : gmap nat (gset nat) :=
  {[ 1 := {[2; 3]}; 2 := {[1]}; 3 := {[1]}; 5 := ∅ ]}.

Definition out_of_date : DistanceGraph :=
  run (replaceTransitionStateGraph ts_graph_joined) admitted_123.

(** Two minima at distance [1e-6], admitted while unconnected and joined
    by a transition state afterwards. *)
Definition close_pair : DistanceGraph :=
  run (addMinimum 1 ;; addMinimum 2 ;;
       replaceTransitionStateGraph {[ 1 := {[2]}; 2 := {[1]} ]})
      (init (mkDatabase [] None []) {[ 1 := ∅; 2 := ∅ ]}
         (λ _ _, Some 1e-6%Q) true 300).

(** Minima 1, 2 and 3 admitted by an object that writes every distance
    to the store at once. *)
Definition written_through : DistanceGraph :=
  run (addMinimum 1 ;; addMinimum 2 ;; addMinimum 3)
      (init (mkDatabase [] None []) ts_graph mindist_sum false 300).

(** The direct edge as the shortest path. *)
Definition direct_path (G : gmap nat (gmap nat Q)) (a b : nat)
  : option (list nat) := Some [a; b].

End scenario.

(** ** Vocabulary of the properties *)

(** *** Relations kept by every step

    [keeps R m]: whatever [m] does, and whether it returns or raises, the
    state it leaves is related by [R] to the state it started from. *)
Definition keeps {A} (R : relation DistanceGraph) (m : M A) : Prop :=
  ∀ self, R self (m self).2.

(** A state predicate that, once true, stays true. *)
Definition stable (P : DistanceGraph → Prop) : relation DistanceGraph :=
  λ self self', P self → P self'.

(** A field (or any observation) that is left as it was. *)
Definition unchanged {A} (f : DistanceGraph → A) : relation DistanceGraph :=
  λ self self', f self' = f self.

(** The self-loop of [m], once zero, stays zero through both loops. *)
Definition self_loop (m : Minimum) (s : DistanceGraph) : Prop :=
  nx.weight (Gdist s) m m = Some 0%Q.

(** The cache only grows: a distance the pure lookup returns is returned
    ever after. *)
Definition cache_grows : relation DistanceGraph :=
  λ s s', ∀ a b d, _getDistNoCalc s a b = Some d → _getDistNoCalc s' a b = Some d.

(** The calls to the distance routine made on the way all satisfy [P]. *)
Definition calls_only (P : nat * nat → Prop) : relation DistanceGraph :=
  λ s s', ∃ extra, mindist_calls s' = mindist_calls s ++ extra
                   ∧ ∀ p, p ∈ extra → P p.

Definition nodes_grow : relation DistanceGraph :=
  λ s s', dom (Gdist s) ⊆ dom (Gdist s').




(** What one turn of the loop does to the edge [e], whose weight in the
    snapshot is [we]. *)
Inductive edge_outcome (we : Q) (allok : bool) (e : nat * nat)
  (self : DistanceGraph) (r : bool) (self' : DistanceGraph) : Prop :=
| consistent :
    areConnected (graph self) e.1 e.2 = Qltb we 1e-10%Q →
    self' = self → r = allok →
    edge_outcome we allok e self r self'
| redundant :
    areConnected (graph self) e.1 e.2 = true → Qltb we 1e-10%Q = false →
    self' = with_Gdist (nx.add_edge e.1 e.2 0%Q) self → r = allok →
    edge_outcome we allok e self r self'
| connected_far (d ws : Q) (s1 : DistanceGraph) :
    areConnected (graph self) e.1 e.2 = true → Qltb we 1e-10%Q = false →
    Qltb 10e-6%Q ws = true →
    getDist e.1 e.2 self = (Ok d, s1) →
    self' = with_Gdist (nx.add_edge e.1 e.2 0%Q)
              (with_warnings
                 (λ l, l ++ [mkWarning true we d (Some ws) e.1 e.2]) s1) →
    r = false →
    edge_outcome we allok e self r self'
| disconnected_zero (d : Q) (s1 : DistanceGraph) :
    areConnected (graph self) e.1 e.2 = false → Qltb we 1e-10%Q = true →
    getDist e.1 e.2 self = (Ok d, s1) →
    self' = with_Gdist (nx.add_edge e.1 e.2 (d * d)%Q)
              (with_warnings
                 (λ l, l ++ [mkWarning false we d None e.1 e.2]) s1) →
    r = false →
    edge_outcome we allok e self r self'.


(** The weight of the edge [e], read as [(a, b)], after its turn: reset
    to zero, set to the squared distance, or left as it was, according
    to the connectivity of its end points and to its weight [we] in
    the snapshot. *)
Definition repaired (we : Q) (e : nat * nat) (before after : DistanceGraph)
  (a b : nat) : Prop :=
  if areConnected (graph before) e.1 e.2 then
    if Qltb we 1e-10%Q
    then nx.weight (Gdist after) a b = nx.weight (Gdist before) a b
    else nx.weight (Gdist after) a b = Some 0%Q
  else
    if Qltb we 1e-10%Q
    then ∃ d, _getDistNoCalc after e.1 e.2 = Some d
              ∧ nx.weight (Gdist after) a b = Some (d * d)%Q
    else nx.weight (Gdist after) a b = nx.weight (Gdist before) a b.

(** The cache holds one value per unordered pair: the two orders of a
    pair, when both are keys, carry the same distance. *)
Definition cache_consistent (self : DistanceGraph) : Prop :=
  ∀ a b x y, distance_map self !! (a, b) = Some x →
             distance_map self !! (b, a) = Some y → x = y.

(** Every edge that does not touch [m] is left as it was. *)
Definition away_from (m : Minimum) : relation DistanceGraph :=
  λ s s', ∀ u v, u ≠ m → v ≠ m →
                 nx.weight (Gdist s') u v = nx.weight (Gdist s) u v.

(** No computed distance is lost: what the cache holds is a row of the
    store or waits in the buffer. *)
Definition no_distance_lost (self : DistanceGraph) : Prop :=
  ∀ a b d, distance_map self !! (a, b) = Some d →
           mkDistance a b d ∈ db.distances (database self)
           ∨ new_distances self !! (a, b) = Some d.

(** With deferred updates the store is not written. *)
Definition store_kept : relation DistanceGraph :=
  λ s s', defer_database_update s = true →
          defer_database_update s' = true ∧ database s' = database s.

Definition rows_kept : relation DistanceGraph :=
  λ s s', defer_database_update s = true →
          defer_database_update s' = true
          ∧ table (database s') = table (database s).

(** * Properties *)

Set Warnings "-clear-no-such-hyp".

(** ** The graph library *)

(** Case analysis on every [decide] of the goal. *)
Ltac decide_cases :=
  repeat match goal with
    | |- context [decide ?P] => destruct (decide P); simplify_eq; simpl
    end.

Module nx_facts.
Import nx.

Lemma has_node_dom (G : gmap nat (gmap nat Q)) n :
  has_node G n = true ↔ n ∈ dom G.
Proof.
  unfold has_node. rewrite elem_of_dom.
  destruct (G !! n); split; intros H; try done; eauto.
  all: by destruct H.
Qed.

Lemma has_edge_weight G u v :
  has_edge G u v = true ↔ is_Some (weight G u v).
Proof.
  unfold has_edge. destruct (weight G u v); split; intros H; eauto; try done.
  all: by destruct H.
Qed.

Lemma weight_has_node G u v w : weight G u v = Some w → u ∈ dom G.
Proof.
  unfold weight. intros H. apply elem_of_dom.
  destruct (G !! u); [eauto | done].
Qed.

Lemma nodes_dom (G : gmap nat (gmap nat Q)) n : n ∈ nodes G ↔ n ∈ dom G.
Proof.
  unfold nodes. rewrite elem_of_dom, list_elem_of_fmap. split.
  - intros [[k x] [-> H]]. apply elem_of_map_to_list in H. eauto.
  - intros [x H]. exists (n, x). split; [done|]. by apply elem_of_map_to_list.
Qed.

Lemma lookup_add_node n (G : gmap nat (gmap nat Q)) a :
  add_node n G !! a
  = if decide (a = n) then Some (default ∅ (G !! n)) else G !! a.
Proof.
  unfold add_node. destruct (G !! n) as [x|] eqn:E.
  - decide_cases; subst; simpl; congruence.
  - rewrite lookup_insert. decide_cases; subst; simpl; congruence.
Qed.

Lemma dom_add_node n (G : gmap nat (gmap nat Q)) :
  dom (add_node n G) = {[n]} ∪ dom G.
Proof.
  apply set_eq. intros a.
  rewrite elem_of_union, elem_of_singleton, !elem_of_dom, lookup_add_node.
  decide_cases; subst; split; eauto. intros [?|?]; done.
Qed.

Lemma weight_add_node n G u v : weight (add_node n G) u v = weight G u v.
Proof.
  unfold weight. rewrite lookup_add_node. decide_cases; subst; [|done].
  destruct (G !! n); simpl; [done|]. apply lookup_empty.
Qed.

Lemma dom_add_edge u v w (G : gmap nat (gmap nat Q)) :
  dom (add_edge u v w G) = {[u]} ∪ ({[v]} ∪ dom G).
Proof.
  unfold add_edge. rewrite !dom_alter_L, !dom_add_node. set_solver.
Qed.

Lemma weight_add_edge u v w G a b :
  weight (add_edge u v w G) a b
  = if decide ((a = u ∧ b = v) ∨ (a = v ∧ b = u)) then Some w
    else weight G a b.
Proof.
  rewrite <- (weight_add_node u G a b).
  rewrite <- (weight_add_node v (add_node u G) a b).
  assert (Hu : is_Some (add_node v (add_node u G) !! u)).
  { rewrite !lookup_add_node. decide_cases; eauto. }
  assert (Hv : is_Some (add_node v (add_node u G) !! v)).
  { rewrite lookup_add_node. decide_cases; eauto. }
  destruct Hu as [au Hu], Hv as [av Hv].
  unfold add_edge, weight. rewrite !lookup_alter.
  decide_cases; subst; simpl;
    rewrite ?Hu, ?Hv; simpl; rewrite ?lookup_insert;
    decide_cases; subst; try done; try naive_solver.
Qed.

Lemma weight_add_edge_same u v w G : weight (add_edge u v w G) u v = Some w.
Proof. rewrite weight_add_edge. decide_cases; naive_solver. Qed.

Lemma weight_add_edge_other u v w G a b :
  ¬ ((a = u ∧ b = v) ∨ (a = v ∧ b = u)) →
  weight (add_edge u v w G) a b = weight G a b.
Proof. intros H. rewrite weight_add_edge. decide_cases; naive_solver. Qed.








End nx_facts.

(** ** The list of edges *)

Module edges_facts.
Import nx.

Lemma edges_from_fst l seen u v :
  (u, v) ∈ edges_from l seen →
  (v ∉ seen) ∧ ∃ nbrs, (u, nbrs) ∈ l ∧ is_Some (nbrs !! v).
Proof.
  revert seen. induction l as [|[n nbrs] l IH]; intros seen; simpl.
  - intros H. by apply elem_of_nil in H.
  - intros [H|H]%elem_of_app.
    + apply list_elem_of_fmap in H as (x & [= -> ->] & Hx).
      apply list_elem_of_filter in Hx as [Hseen Hx].
      split; [done|]. exists nbrs. split; [by left|].
      apply list_elem_of_fmap in Hx as ([k w] & -> & Hx).
      apply elem_of_map_to_list in Hx. simpl. eauto.
    + apply IH in H as (Hseen & nb & Hin & Hv).
      split; [set_solver|]. exists nb. split; [by right | done].
Qed.

(** No edge is listed in both directions. *)
Lemma edges_from_one_way l seen u v :
  (u, v) ∈ edges_from l seen → (v, u) ∈ edges_from l seen → u = v.
Proof.
  revert seen. induction l as [|[n nbrs] l IH]; intros seen; simpl.
  - intros H. by apply elem_of_nil in H.
  - intros [H1|H1]%elem_of_app [H2|H2]%elem_of_app.
    + apply list_elem_of_fmap in H1 as (x & [= -> ->] & _).
      apply list_elem_of_fmap in H2 as (y & [= -> ->] & _). done.
    + apply list_elem_of_fmap in H1 as (x & [= -> ->] & _).
      apply edges_from_fst in H2 as [Hseen _]. set_solver.
    + apply list_elem_of_fmap in H2 as (x & [= -> ->] & _).
      apply edges_from_fst in H1 as [Hseen _]. set_solver.
    + by eapply IH.
Qed.

(** No edge is listed twice. *)
Lemma edges_from_NoDup l seen : NoDup l.*1 → NoDup (edges_from l seen).
Proof.
  revert seen. induction l as [|[n nbrs] l IH]; intros seen Hnd; simpl.
  - constructor.
  - apply NoDup_cons in Hnd as [Hn Hnd]. apply NoDup_app. split.
    + apply NoDup_fmap_2; [by intros ? ? [= ->]|].
      apply NoDup_filter, NoDup_fst_map_to_list.
    + split; [|by apply IH].
      intros [a b] (x & [= -> ->] & _)%list_elem_of_fmap H2.
      apply edges_from_fst in H2 as (_ & nb & Hin & _).
      apply Hn. apply list_elem_of_fmap. by exists (n, nb).
Qed.

(** Every edge of a graph is listed, in one direction or the other. *)
Lemma edges_from_covers l seen u v nbu nbv :
  NoDup l.*1 →
  (u, nbu) ∈ l → (v, nbv) ∈ l → is_Some (nbu !! v) → is_Some (nbv !! u) →
  u ∉ seen → v ∉ seen →
  (u, v) ∈ edges_from l seen ∨ (v, u) ∈ edges_from l seen.
Proof.
  revert seen. induction l as [|[n nbrs] l IH];
    intros seen Hnd Hu Hv Huv Hvu Hus Hvs; simpl.
  - by apply elem_of_nil in Hu.
  - apply NoDup_cons in Hnd as [Hn Hnd].
    assert (Hhead : ∀ a b nb, (a, nb) = (n, nbrs) → is_Some (nb !! b) →
              b ∉ seen →
              (a, b) ∈ ((λ v, (n, v)) <$>
                          filter (λ v, v ∉ seen) (map_to_list nbrs).*1)).
    { intros a b nb [= -> ->] [w Hw] Hb. apply list_elem_of_fmap.
      exists b. split; [done|]. apply list_elem_of_filter. split; [done|].
      apply list_elem_of_fmap. exists (b, w). split; [done|].
      by apply elem_of_map_to_list. }
    assert (Htail : ∀ a nb, (a, nb) ∈ l → a ≠ n).
    { intros a nb Hin ->. apply Hn. apply list_elem_of_fmap.
      by exists (n, nb). }
    apply elem_of_cons in Hu as [Hu|Hu].
    { left. apply elem_of_app. left. by eapply Hhead. }
    apply elem_of_cons in Hv as [Hv|Hv].
    { right. apply elem_of_app. left. by eapply Hhead. }
    destruct (IH ({[n]} ∪ seen)) as [H|H]; try done.
    + apply Htail in Hu. set_solver.
    + apply Htail in Hv. set_solver.
    + left. apply elem_of_app. by right.
    + right. apply elem_of_app. by right.
Qed.

Lemma edges_weight G u v : (u, v) ∈ edges G → is_Some (weight G u v).
Proof.
  intros (_ & nb & Hin & Hv)%edges_from_fst.
  apply elem_of_map_to_list in Hin. unfold weight. by rewrite Hin.
Qed.

Lemma edges_NoDup G : NoDup (edges G).
Proof. apply edges_from_NoDup, NoDup_fst_map_to_list. Qed.

Lemma edges_one_way G u v : (u, v) ∈ edges G → (v, u) ∈ edges G → u = v.
Proof. apply edges_from_one_way. Qed.

(** On a graph with symmetric adjacency [G.edges()] lists every edge. *)
Lemma edges_covers G u v w :
  wf G → weight G u v = Some w → (u, v) ∈ edges G ∨ (v, u) ∈ edges G.
Proof.
  intros Hwf Huv. pose proof (Hwf _ _ _ Huv) as Hvu.
  unfold weight in Huv, Hvu.
  destruct (G !! u) as [nbu|] eqn:Hu; [|done].
  destruct (G !! v) as [nbv|] eqn:Hv; [|done].
  apply (edges_from_covers _ _ _ _ nbu nbv);
    [apply NoDup_fst_map_to_list | by apply elem_of_map_to_list
    | by apply elem_of_map_to_list | eauto | eauto | set_solver | set_solver].
Qed.

(** The snapshot [get_edge_attributes] holds the weight of every listed
    edge. *)
Lemma get_edge_attributes_lookup G e :
  e ∈ edges G → get_edge_attributes G !! e = weight G e.1 e.2.
Proof.
  intros He. unfold get_edge_attributes.
  destruct e as [u v]. destruct (edges_weight G u v He) as [w Hw].
  simpl. rewrite Hw. apply elem_of_list_to_map_1.
  - pose proof (edges_NoDup G) as Hnd. revert Hnd.
    generalize (edges G) as es. clear.
    induction es as [|e es IH]; intros Hnd; simpl; [constructor|].
    apply NoDup_cons in Hnd as [He Hnd].
    destruct (weight G e.1 e.2) as [w|]; simpl; [|by apply IH].
    apply NoDup_cons. split; [|by apply IH].
    intros ([e' w'] & Heq & Hin)%list_elem_of_fmap.
    apply list_elem_of_omap in Hin as (e2 & He2 & Hw2).
    destruct (weight G e2.1 e2.2); simpl in *; simplify_eq. done.
  - apply list_elem_of_omap. exists (u, v). split; [done|].
    simpl. by rewrite Hw.
Qed.

End edges_facts.

(** ** Numbers *)

Lemma Qltb_lt x y : Qltb x y = true ↔ (x < y)%Q.
Proof.
  unfold Qltb. rewrite negb_true_iff. split.
  - intros H. apply Qnot_le_lt. intros Hle.
    apply Qle_bool_iff in Hle. congruence.
  - intros H. destruct (Qle_bool y x) eqn:E; [|done].
    apply Qle_bool_iff in E. exfalso. by apply (Qlt_not_le x y).
Qed.

Lemma Qltb_ge x y : Qltb x y = false ↔ (y <= x)%Q.
Proof.
  unfold Qltb. rewrite negb_false_iff. apply Qle_bool_iff.
Qed.


(** ** Running computations *)

(** The steps a computation is made of, unfolded without touching the
    dictionaries. *)
Tactic Notation "munfold" :=
  cbv beta iota zeta delta
    [mbind M_bind mret M_ret gets modify raise getitem try_except_reraise
     negb andb orb].

Tactic Notation "munfold" "in" hyp(H) :=
  cbv beta iota zeta delta
    [mbind M_bind mret M_ret gets modify raise getitem try_except_reraise
     negb andb orb] in H.

Ltac proj_simpl :=
  cbn [database graph mindist Gdist distance_map defer_database_update
       new_distances db_update_min mindist_calls warnings
       with_database with_Gdist with_distance_map with_new_distances
       with_mindist_calls with_warnings fst snd].

Lemma bind_run {A B} (m : M A) (f : A → M B) self :
  (m ≫= f) self
  = match m self with
    | (Ok a, self') => f a self'
    | (Raise e, self') => (Raise e, self')
    end.
Proof. reflexivity. Qed.


Section Keeps.
Context (R : relation DistanceGraph) `{!PreOrder R}.

Lemma keeps_ret {A} (a : A) : keeps R (mret a).
Proof. intros self. reflexivity. Qed.

Lemma keeps_raise {A} e : keeps R (@raise A e).
Proof. intros self. reflexivity. Qed.

Lemma keeps_gets {A} (f : DistanceGraph → A) : keeps R (gets f).
Proof. intros self. reflexivity. Qed.

Lemma keeps_getitem {A} (o : DistanceGraph → option A) :
  keeps R (λ self, getitem (o self) self).
Proof. intros self. destruct (o self); reflexivity. Qed.

Lemma keeps_modify f : (∀ self, R self (f self)) → keeps R (modify f).
Proof. intros H self. apply H. Qed.

Lemma keeps_bind {A B} (m : M A) (f : A → M B) :
  keeps R m → (∀ a, keeps R (f a)) → keeps R (m ≫= f).
Proof.
  intros Hm Hf self. rewrite bind_run.
  specialize (Hm self). destruct (m self) as [[a|e] self1]; simpl in *.
  - etrans; [exact Hm | apply Hf].
  - exact Hm.
Qed.

Lemma keeps_for {A} (l : list A) (body : A → M unit) :
  (∀ x, x ∈ l → keeps R (body x)) → keeps R (for_ l body).
Proof.
  induction l as [|x l IH]; intros H; simpl.
  - apply keeps_ret.
  - apply keeps_bind.
    + apply H. by left.
    + intros _. apply IH. intros y Hy. apply H. by right.
Qed.

Lemma keeps_if {A} (b : bool) (m1 m2 : M A) :
  keeps R m1 → keeps R m2 → keeps R (if b then m1 else m2).
Proof. by destruct b. Qed.

Lemma keeps_try {A} (body : M A) handler orelse :
  keeps R body → (∀ self, R self (handler self)) →
  (∀ self, R self (orelse self)) →
  keeps R (try_except_reraise body handler orelse).
Proof.
  intros Hb Hh Ho self. unfold try_except_reraise.
  specialize (Hb self). destruct (body self) as [[a|e] self1]; simpl in *.
  - etrans; [exact Hb | apply Ho].
  - etrans; [exact Hb | apply Hh].
Qed.

End Keeps.


#[global] Instance stable_preorder P : PreOrder (stable P).
Proof. split; unfold stable; [intros ?; auto | intros x y z ? ?; auto]. Qed.


#[global] Instance unchanged_preorder {A} (f : DistanceGraph → A) :
  PreOrder (unchanged f).
Proof.
  split; unfold unchanged; [intros ?; auto | intros x y z ? ?; congruence].
Qed.

(** Tactic proving [keeps R m] by following the structure of [m]; the
    leaves left over are the modifications of [self]. *)
Ltac keeps_step :=
  match goal with
  | |- keeps _ (mret _) => apply keeps_ret; try apply _
  | |- keeps _ (raise _) => apply keeps_raise; try apply _
  | |- keeps _ (gets _) => apply keeps_gets; try apply _
  | |- keeps _ (λ self, getitem _ self) => apply keeps_getitem; try apply _
  | |- keeps _ (getitem _) => apply (keeps_getitem _ (λ _, _)); try apply _
  | |- keeps _ (modify _) => apply keeps_modify; intros ?
  | |- keeps _ (_ ≫= _) => apply keeps_bind; [apply _ | | intros ?]
  | |- keeps _ (for_ _ _) => apply keeps_for; [apply _ | intros ? ?]
  | |- keeps _ (try_except_reraise _ _ _) =>
      apply keeps_try; [apply _ | | intros ? | intros ?]
  | |- keeps _ (if _ then _ else _) => apply keeps_if
  | |- keeps _ (match ?o with Some _ => _ | None => _ end) => destruct o
  | |- keeps _ (let '(_, _) := ?p in _) => destruct p
  end.

Ltac keeps_auto := repeat keeps_step; try done.

(** ** The distance cache *)

(** Rows written over a cache, in order: the dictionary assignments of
    [_initializeDistances]. *)
Lemma initializeDistances_run self :
  _initializeDistances self
  = (Ok tt,
     with_distance_map (λ dm,
       foldl (λ dm d, <[(_minimum1_id d, _minimum2_id d) := dist d]> dm)
             dm (db.distances (database self))) self).
Proof.
  unfold _initializeDistances. rewrite bind_run. unfold gets at 1.
  generalize (db.distances (database self)) as rows.
  intros rows. revert self.
  induction rows as [|d rows IH]; intros self; simpl.
  - by destruct self.
  - rewrite bind_run. unfold modify at 1. rewrite IH. by destruct self.
Qed.

Lemma lookup_foldl_rows (rows : list Distance) (dm : gmap (nat * nat) Q) k v :
  foldl (λ dm d, <[(_minimum1_id d, _minimum2_id d) := dist d]> dm) dm rows
    !! k = Some v →
  (∃ d, d ∈ rows ∧ (_minimum1_id d, _minimum2_id d) = k ∧ dist d = v)
  ∨ dm !! k = Some v.
Proof.
  revert dm. induction rows as [|d rows IH]; intros dm; simpl; [by right|].
  intros [(d' & Hin & Hk & Hv)|H]%IH.
  - left. exists d'. split; [by right | done].
  - rewrite lookup_insert in H. destruct (decide _) as [Heq|Hne].
    + left. exists d. split; [by left|]. split; congruence.
    + by right.
Qed.

Lemma lookup_foldl_rows_is_Some (rows : list Distance) (dm : gmap (nat * nat) Q) k :
  (∃ d, d ∈ rows ∧ (_minimum1_id d, _minimum2_id d) = k) ∨ is_Some (dm !! k) →
  is_Some (foldl (λ dm d, <[(_minimum1_id d, _minimum2_id d) := dist d]> dm)
             dm rows !! k).
Proof.
  revert dm. induction rows as [|d rows IH]; intros dm H; simpl.
  - destruct H as [(d & Hin & _)|H]; [|done]. by apply elem_of_nil in Hin.
  - apply IH. destruct H as [(d' & Hin & Hk)|H].
    + apply elem_of_cons in Hin as [->|Hin]; [|by eauto].
      right. rewrite Hk, lookup_insert_eq. eauto.
    + right. rewrite lookup_insert. destruct (decide _); eauto.
Qed.

(** C2.  A distance [x] persisted for the pair [(a, b)] is returned by the
    pure lookup [_getDistNoCalc] in either order once the cache has been
    warmed by [_initializeDistances], and warming calls the external
    distance routine for no pair.  The store holds one value per unordered
    pair, and what the cache may already hold for the pair agrees with it
    (the cache is empty when the process starts). *)
Theorem initializeDistances_getDistNoCalc
  (self : DistanceGraph) (a b : Minimum) (x : Q) :
  mkDistance a b x ∈ db.distances (database self) →
  (∀ d, d ∈ db.distances (database self) →
        (_minimum1_id d, _minimum2_id d) = (a, b)
        ∨ (_minimum1_id d, _minimum2_id d) = (b, a) →
        dist d = x) →
  (∀ v, distance_map self !! (a, b) = Some v
        ∨ distance_map self !! (b, a) = Some v → v = x) →
  ∃ self',
    _initializeDistances self = (Ok tt, self')
    ∧ _getDistNoCalc self' a b = Some x
    ∧ _getDistNoCalc self' b a = Some x
    ∧ mindist_calls self' = mindist_calls self.
Proof.
  intros Hin Huniq Hcache. rewrite initializeDistances_run.
  eexists. split; [reflexivity|].
  set (dm' := foldl (λ dm d, <[(_minimum1_id d, _minimum2_id d) := dist d]> dm)
                (distance_map self) (db.distances (database self))).
  assert (Hval : ∀ k v, k = (a, b) ∨ k = (b, a) → dm' !! k = Some v → v = x).
  { intros k v Hk [(d & Hd & Hkey & Hv)|Hold]%lookup_foldl_rows.
    - rewrite <- Hv. apply Huniq; [done|]. rewrite Hkey. exact Hk.
    - apply Hcache. destruct Hk as [->| ->]; eauto. }
  assert (Hab : dm' !! (a, b) = Some x).
  { destruct (lookup_foldl_rows_is_Some (db.distances (database self))
                (distance_map self) (a, b)) as [v Hv].
    - left. by exists (mkDistance a b x).
    - fold dm' in Hv. rewrite Hv. f_equal. apply (Hval (a, b)); eauto. }
  unfold _getDistNoCalc. proj_simpl. fold dm'. rewrite Hab.
  split; [done|]. split; [|done].
  destruct (dm' !! (b, a)) as [v|] eqn:Hba; [|done].
  f_equal. apply (Hval (b, a)); eauto.
Qed.

Lemma initializeDistances_getDistNoCalc_witness :
  mkDistance 3 2 5 ∈ db.distances (database scenario.cold)
  ∧ ∃ self', _initializeDistances scenario.cold = (Ok tt, self')
             ∧ _getDistNoCalc self' 2 3 = Some 5%Q.
Proof.
  assert (H : mkDistance 3 2 5 ∈ db.distances (database scenario.cold)).
  { vm_compute. repeat constructor. }
  split; [exact H|].
  destruct (initializeDistances_getDistNoCalc scenario.cold 3 2 5 H)
    as (self' & Hrun & _ & Hba & _).
  - intros d Hd Hk. vm_compute in Hd.
    repeat (apply elem_of_cons in Hd as [->|Hd]); simpl in Hk;
      try (destruct Hk; simplify_eq); try done.
    all: by apply elem_of_nil in Hd.
  - intros v [Hv|Hv]; vm_compute in Hv; discriminate.
  - exists self'. split; [exact Hrun | exact Hba].
Defined.

(** ** Marking a pair unproductive *)

(** C8.  When the edge [min1]-[min2] exists with weight [w], [removeEdge]
    returns [True] without raising; if [w < 1e-6] (approximately zero) the
    object is left exactly as it was, otherwise the weight of the edge
    becomes the sentinel [1e20], in both directions.  In particular a zero
    weight is never overwritten. *)
Theorem removeEdge_keeps_zero (self : DistanceGraph) (min1 min2 : Minimum) (w : Q) :
  nx.weight (Gdist self) min1 min2 = Some w →
  ∃ self',
    removeEdge min1 min2 self = (Ok true, self')
    ∧ ((w < 1e-6)%Q → self' = self)
    ∧ (¬ (w < 1e-6)%Q →
       nx.weight (Gdist self') min1 min2 = Some 1e20%Q
       ∧ nx.weight (Gdist self') min2 min1 = Some 1e20%Q)
    ∧ ((w == 0)%Q → nx.weight (Gdist self') min1 min2 = Some w).
Proof.
  intros Hw. unfold removeEdge, nx.has_edge. munfold. rewrite Hw.
  destruct (Qltb w 1e-6%Q) eqn:E; simpl.
  - apply Qltb_lt in E. eexists. split; [reflexivity|].
    split; [done|]. split; [done|]. done.
  - apply Qltb_ge in E. eexists. split; [reflexivity|]. proj_simpl.
    split; [intros H; exfalso; by apply (Qlt_not_le _ _ H)|].
    split.
    + intros _. rewrite !nx_facts.weight_add_edge.
      decide_cases; naive_solver.
    + intros H0. exfalso. rewrite H0 in E. by vm_compute in E.
Qed.

Lemma removeEdge_keeps_zero_witness :
  ∃ self',
    removeEdge 1 2 (with_Gdist (nx.add_edge 1 2 4%Q)
                      (init (mkDatabase [] None []) ∅ (λ _ _, None) true 300))
    = (Ok true, self')
    ∧ nx.weight (Gdist self') 1 2 = Some 1e20%Q.
Proof.
  destruct (removeEdge_keeps_zero
              (with_Gdist (nx.add_edge 1 2 4%Q)
                 (init (mkDatabase [] None []) ∅ (λ _ _, None) true 300))
              1 2 4%Q) as (self' & Hrun & _ & Hinf & _).
  - reflexivity.
  - exists self'. split; [exact Hrun|]. apply Hinf. by vm_compute.
Defined.

(** ** Merging two minima *)

(** C4 (as the code has it).  [mergeMinima] rewrites the distance graph
    only: whether it returns or raises, the distance cache
    [distance_map] and the buffer of pending writes [new_distances] are
    exactly what they were, so that the entries naming the dropped minimum
    are still there. *)
Theorem mergeMinima_leaves_cache (self : DistanceGraph) (keep drop : Minimum) :
  distance_map (mergeMinima keep drop self).2 = distance_map self
  ∧ new_distances (mergeMinima keep drop self).2 = new_distances self.
Proof.
  assert (H : keeps (unchanged (λ s, (distance_map s, new_distances s)))
                (mergeMinima keep drop)).
  { unfold mergeMinima, mergeMinima_edge. keeps_auto. }
  specialize (H self). unfold unchanged in H. by simplify_eq.
Qed.

(** C4, refuted as stated: after merging 3 into 1 the cache and the buffer
    still hold the distance recorded for the pair (3, 2). *)
Lemma mergeMinima_cache_mentions_drop :
  (mergeMinima 1 3 scenario.admitted_123).1 = Ok tt
  ∧ distance_map (mergeMinima 1 3 scenario.admitted_123).2 !! (3, 2) = Some 5%Q
  ∧ new_distances (mergeMinima 1 3 scenario.admitted_123).2 !! (3, 2) = Some 5%Q.
Proof. by vm_compute. Qed.








(** ** Admission *)

Lemma bfs_extensive G fuel seen : seen ⊆ nx.bfs G fuel seen.
Proof.
  revert seen. induction fuel as [|k IH]; intros seen; simpl; [done|].
  etrans; [|apply IH]. unfold nx.bfs_level. set_solver.
Qed.

(** A node belongs to its own connected component. *)
Lemma node_connected_component_self G m cc :
  nx.node_connected_component G m = Some cc → m ∈ cc.
Proof.
  unfold nx.node_connected_component. destruct (G !! m); [|done].
  intros [= <-]. apply bfs_extensive. set_solver.
Qed.

Lemma node_connected_component_is_Some G m :
  is_Some (nx.node_connected_component G m) ↔ m ∈ dom G.
Proof.
  unfold nx.node_connected_component. rewrite elem_of_dom.
  destruct (G !! m); split; intros [? ?]; eauto; done.
Qed.

(** What the steps of an admission leave alone. *)
Lemma getDist_keeps_Gdist a b : keeps (unchanged Gdist) (getDist a b).
Proof. unfold getDist, call_mindist, _setDist. keeps_auto. Qed.




Lemma _addMinimum_connected_keeps_self_loop m m2 :
  keeps (stable (self_loop m)) (_addMinimum_connected m m2).
Proof.
  unfold _addMinimum_connected, setTransitionStateConnection.
  keeps_auto. unfold stable, self_loop. proj_simpl.
  rewrite nx_facts.weight_add_edge. by decide_cases.
Qed.

Lemma _addMinimum_distance_keeps_self_loop m m2 :
  keeps (stable (self_loop m)) (_addMinimum_distance m m2).
Proof.
  intros self Hm. unfold _addMinimum_distance. rewrite bind_run.
  unfold gets at 1. unfold nx.has_edge.
  destruct (nx.weight (Gdist self) m m2) as [w|] eqn:Hw; munfold; [done|].
  assert (m2 ≠ m) by (intros ->; unfold self_loop in Hm; congruence).
  pose proof (getDist_keeps_Gdist m m2 self) as HG. unfold unchanged in HG.
  destruct (getDist m m2 self) as [[d|e] s1]; simpl in *.
  - unfold self_loop. proj_simpl. rewrite HG.
    rewrite nx_facts.weight_add_edge_other; [done | naive_solver].
  - unfold self_loop. by rewrite HG.
Qed.

(** The first loop never raises, and sets the self-loop when it meets [m]. *)
Lemma _addMinimum_connected_loop m (l : list nat) :
  ∀ self,
    m ∈ dom (Gdist self) →
    m ∈ l ∨ self_loop m self →
    ∃ self', for_ l (_addMinimum_connected m) self = (Ok tt, self')
             ∧ self_loop m self'.
Proof.
  induction l as [|x l IH]; intros self Hdom Hm; cbn [for_].
  - destruct Hm as [Hm|Hm]; [by apply elem_of_nil in Hm|]. by exists self.
  - rewrite bind_run.
    unfold _addMinimum_connected, setTransitionStateConnection.
    rewrite bind_run. unfold gets at 1.
    destruct (nx.has_node (Gdist self) x) eqn:Hx; munfold.
    + apply IH.
      * proj_simpl. rewrite nx_facts.dom_add_edge. set_solver.
      * destruct (decide (x = m)) as [->|Hne].
        -- right. unfold self_loop. proj_simpl.
           apply nx_facts.weight_add_edge_same.
        -- destruct Hm as [Hm|Hm]; [left; set_solver | right].
           unfold self_loop. proj_simpl.
           rewrite nx_facts.weight_add_edge_other; [done | naive_solver].
    + apply IH; [done|]. destruct Hm as [Hm|Hm]; [|by right].
      apply elem_of_cons in Hm as [->|Hm]; [|by left].
      apply nx_facts.has_node_dom in Hdom. congruence.
Qed.

(** After [_addMinimum m], returned or raised past the component lookup,
    the self-loop of [m] has weight zero. *)
Lemma _addMinimum_self_loop m self :
  m ∈ dom (graph self) → self_loop m (_addMinimum m self).2.
Proof.
  intros Hg. apply node_connected_component_is_Some in Hg as [cc Hcc].
  unfold _addMinimum. rewrite bind_run. unfold modify at 1.
  rewrite bind_run. proj_simpl. rewrite Hcc. unfold getitem, mret at 1, M_ret.
  rewrite bind_run.
  destruct (_addMinimum_connected_loop m (elements cc)
              (with_Gdist (nx.add_node m) self)) as (s1 & Hrun1 & Hs1).
  { proj_simpl. rewrite nx_facts.dom_add_node. set_solver. }
  { left. apply elem_of_elements. by eapply node_connected_component_self. }
  rewrite Hrun1, bind_run. unfold gets at 1.
  apply (keeps_for (stable (self_loop m))); [|done].
  intros x _. apply _addMinimum_distance_keeps_self_loop.
Qed.

Lemma addMinimum_run m self :
  addMinimum m self
  = match (if nx.has_node (Gdist self) m then (Ok tt, with_database db.begin self)
           else _addMinimum m (with_database db.begin self)) with
    | (Ok a, s) => (Ok a, with_database db.commit s)
    | (Raise e, s) => (Raise e, with_database db.rollback s)
    end.
Proof.
  unfold addMinimum. rewrite bind_run. unfold modify at 1.
  unfold try_except_reraise. rewrite bind_run. unfold gets at 1.
  proj_simpl. by destruct (nx.has_node (Gdist self) m).
Qed.

(** C9.  For a minimum [m] of the connectivity graph that is not yet a
    node of the distance graph (or already carries its self-loop): after
    a successful [addMinimum m] the distance graph holds the self-loop
    [(m, m)] with weight 0, because [m] lies in its own connected
    component, and the loop is an entry of the adjacency [Gdist[m]] that a
    later merge dropping [m] iterates over. *)
Theorem addMinimum_self_loop (self self' : DistanceGraph) (m : Minimum) :
  m ∈ dom (graph self) →
  m ∉ dom (Gdist self) ∨ nx.weight (Gdist self) m m = Some 0%Q →
  addMinimum m self = (Ok tt, self') →
  nx.weight (Gdist self') m m = Some 0%Q
  ∧ ∃ nbrs, Gdist self' !! m = Some nbrs ∧ (m, 0%Q) ∈ map_to_list nbrs.
Proof.
  intros Hg Hm Hrun.
  assert (Hloop : nx.weight (Gdist self') m m = Some 0%Q).
  { rewrite addMinimum_run in Hrun.
    destruct (nx.has_node (Gdist self) m) eqn:Hn.
    - simplify_eq. proj_simpl. destruct Hm as [Hm|Hm]; [|done].
      apply nx_facts.has_node_dom in Hn. done.
    - pose proof (_addMinimum_self_loop m (with_database db.begin self) Hg) as H.
      destruct (_addMinimum m (with_database db.begin self)) as [[[]|e] s1];
        simplify_eq. exact H. }
  split; [done|]. unfold nx.weight in Hloop.
  destruct (Gdist self' !! m) as [nbrs|]; [|done].
  exists nbrs. split; [done|]. by apply elem_of_map_to_list.
Qed.



Lemma addMinimum_self_loop_witness :
  3 ∈ dom (graph scenario.admitted_12)
  ∧ nx.weight (Gdist scenario.admitted_123) 3 3 = Some 0%Q.
Proof.
  assert (H : 3 ∈ dom (graph scenario.admitted_12)).
  { apply elem_of_dom. vm_compute. eauto. }
  split; [exact H|].
  apply (addMinimum_self_loop scenario.admitted_12 scenario.admitted_123 3 H).
  - left. apply not_elem_of_dom. by vm_compute.
  - by vm_compute.
Defined.




(** ** Relevance pruning *)


#[global] Instance cache_grows_preorder : PreOrder cache_grows.
Proof. split; unfold cache_grows; [intros ?; auto | intros x y z ? ?; auto]. Qed.


#[global] Instance calls_only_preorder P : PreOrder (calls_only P).
Proof.
  split.
  - intros s. exists []. split; [by rewrite app_nil_r|].
    intros p Hp. by apply elem_of_nil in Hp.
  - intros x y z (e1 & H1 & Hp1) (e2 & H2 & Hp2). exists (e1 ++ e2).
    split; [by rewrite H2, H1, app_assoc|].
    intros p [?|?]%elem_of_app; auto.
Qed.



#[global] Instance nodes_grow_preorder : PreOrder nodes_grow.
Proof.
  split; unfold nodes_grow; [intros ?; done | intros x y z ? ?; by etrans].
Qed.

Lemma getDist_run_hit a b d self :
  _getDistNoCalc self a b = Some d → getDist a b self = (Ok d, self).
Proof. intros H. unfold getDist. rewrite bind_run. unfold gets. by rewrite H. Qed.

(** After a successful [getDist] the distance is in the cache. *)
Lemma getDist_cached a b d self self' :
  getDist a b self = (Ok d, self') → _getDistNoCalc self' a b = Some d.
Proof.
  unfold getDist. rewrite bind_run. unfold gets at 1.
  destruct (_getDistNoCalc self a b) as [d0|] eqn:Hd.
  - munfold. intros ?. by simplify_eq.
  - unfold call_mindist, _setDist. munfold. proj_simpl.
    destruct (mindist self a b) as [x|]; [|done]. munfold. proj_simpl.
    destruct (defer_database_update self); intros ?; simplify_eq;
      unfold _getDistNoCalc; proj_simpl; by rewrite lookup_insert_eq.
Qed.

Lemma getDist_keeps_cache a b : keeps cache_grows (getDist a b).
Proof.
  intros self. unfold getDist. rewrite bind_run. unfold gets at 1.
  destruct (_getDistNoCalc self a b) as [d0|] eqn:Hd; [munfold; reflexivity|].
  unfold call_mindist, _setDist. munfold. proj_simpl.
  destruct (mindist self a b) as [x|]; [|by intros ? ? ?]. munfold. proj_simpl.
  assert (Hins : ∀ s', distance_map s' = <[(a, b) := x]> (distance_map self) →
                       cache_grows self s').
  { intros s' Hs' u v d. unfold _getDistNoCalc in *. rewrite Hs'.
    destruct (distance_map self !! (a, b)) eqn:E1; [done|].
    destruct (distance_map self !! (b, a)) eqn:E2; [done|].
    rewrite !lookup_insert.
    destruct (decide ((a, b) = (u, v))) as [[= <- <-]|N1].
    - rewrite E1, E2. done.
    - destruct (distance_map self !! (u, v)); [done|].
      destruct (decide ((a, b) = (v, u))) as [[= <- <-]|N2]; [|done].
      by rewrite E1. }
  destruct (defer_database_update self); simpl; by apply Hins.
Qed.


















(** ** Consistency repair *)

Section CheckGraph.
Variable nx_shortest_path :
  gmap nat (gmap nat Q) → nat → nat → option (list nat).


Lemma checkGraph_edge_outcome weights allok e self r self' :
  checkGraph_edge nx_shortest_path weights allok e self = (Ok r, self') →
  ∃ we, weights !! e = Some we ∧ edge_outcome we allok e self r self'.
Proof.
  unfold checkGraph_edge. rewrite bind_run. unfold gets at 1.
  rewrite bind_run. destruct (weights !! e) as [we|]; munfold; [|done].
  intros Hrun. exists we. split; [done|].
  destruct (areConnected (graph self) e.1 e.2) eqn:Hconn,
    (Qltb we 1e-10%Q) eqn:Hzero; munfold in Hrun.
  - apply consistent; congruence.
  - revert Hrun. unfold shortestPath. munfold.
    destruct (nx_shortest_path (Gdist self) e.1 e.2) as [path|]; munfold;
      [|done].
    destruct (path_weights (Gdist self) path) as [pw|]; munfold; [|done].
    destruct (Qltb 10e-6%Q (pysum pw)) eqn:Hsum.
    + destruct (getDist e.1 e.2 self) as [[d|err] s1] eqn:Hd; munfold;
        [|done].
      unfold setTransitionStateConnection. munfold. intros ?. simplify_eq.
      by eapply connected_far.
    + unfold setTransitionStateConnection. munfold. intros ?. simplify_eq.
      by apply redundant.
  - revert Hrun.
    destruct (getDist e.1 e.2 self) as [[d|err] s1] eqn:Hd; munfold; [|done].
    intros ?. simplify_eq. by eapply disconnected_zero.
  - apply consistent; congruence.
Qed.

Lemma getDist_keeps_graph a b : keeps (unchanged graph) (getDist a b).
Proof. unfold getDist, call_mindist, _setDist. keeps_auto. Qed.






End CheckGraph.



Section Repair.
Variable nx_shortest_path :
  gmap nat (gmap nat Q) → nat → nat → option (list nat).


Lemma edge_outcome_weights we allok e self r s1 :
  edge_outcome we allok e self r s1 →
  graph s1 = graph self
  ∧ cache_grows self s1
  ∧ (∀ a b, (a, b) ≠ e → (a, b) ≠ (e.2, e.1) →
            nx.weight (Gdist s1) a b = nx.weight (Gdist self) a b)
  ∧ repaired we e self s1 e.1 e.2
  ∧ repaired we e self s1 e.2 e.1.
Proof.
  destruct e as [u v]. unfold repaired.
  intros [Hc -> ->|Hc Hz -> ->|d ws s' Hc Hz Hs Hd -> ->|d s' Hc Hz Hd -> ->];
    cbn [fst snd] in *; proj_simpl.
  - split; [done|]. split; [reflexivity|]. split; [done|].
    rewrite Hc. destruct (Qltb we 1e-10%Q); split; reflexivity.
  - split; [done|]. split; [by intros ? ? ?|]. rewrite Hc, Hz. split.
    + intros a b H1 H2. apply nx_facts.weight_add_edge_other. naive_solver.
    + rewrite !nx_facts.weight_add_edge. by decide_cases; naive_solver.
  - pose proof (getDist_keeps_graph u v self) as Hg.
    pose proof (getDist_keeps_Gdist u v self) as HG.
    pose proof (getDist_keeps_cache u v self) as Hca.
    rewrite Hd in Hg, HG, Hca. unfold unchanged in *. cbn [fst snd] in *.
    split; [done|]. split; [done|]. rewrite Hc, Hz, HG. split.
    + intros a b H1 H2. apply nx_facts.weight_add_edge_other. naive_solver.
    + rewrite !nx_facts.weight_add_edge. by decide_cases; naive_solver.
  - pose proof (getDist_keeps_graph u v self) as Hg.
    pose proof (getDist_keeps_Gdist u v self) as HG.
    pose proof (getDist_keeps_cache u v self) as Hca.
    pose proof (getDist_cached u v d self s' Hd) as Hcd.
    rewrite Hd in Hg, HG, Hca. unfold unchanged in *. cbn [fst snd] in *.
    split; [done|]. split; [done|]. rewrite Hc, Hz, HG. split.
    + intros a b H1 H2. apply nx_facts.weight_add_edge_other. naive_solver.
    + rewrite !nx_facts.weight_add_edge.
      split; exists d; (split; [done|]); by decide_cases; naive_solver.
Qed.

Lemma repaired_later we e self s1 self' a b :
  graph s1 = graph self → cache_grows s1 self' →
  nx.weight (Gdist self') a b = nx.weight (Gdist s1) a b →
  repaired we e self s1 a b → repaired we e self self' a b.
Proof.
  intros Hg Hc Hw. unfold repaired. rewrite Hw.
  destruct (areConnected (graph self) e.1 e.2), (Qltb we 1e-10%Q); try done.
  intros (d & Hd & ?). exists d. split; [by apply Hc | done].
Qed.

Lemma repaired_earlier we e self s1 self' a b :
  graph s1 = graph self →
  nx.weight (Gdist s1) a b = nx.weight (Gdist self) a b →
  repaired we e s1 self' a b → repaired we e self self' a b.
Proof. intros Hg Hw. unfold repaired. by rewrite Hg, Hw. Qed.

(** The loop over a list of edges none of which occurs twice or in both
    directions: every edge of the list ends as its own turn leaves it,
    and no other weight moves. *)
Lemma checkGraph_loop_weights weights es :
  NoDup es → (∀ u v, (u, v) ∈ es → (v, u) ∈ es → u = v) →
  ∀ allok self r self',
    checkGraph_loop nx_shortest_path weights allok es self = (Ok r, self') →
    graph self' = graph self
    ∧ cache_grows self self'
    ∧ (∀ a b, (a, b) ∉ es → (b, a) ∉ es →
              nx.weight (Gdist self') a b = nx.weight (Gdist self) a b)
    ∧ (∀ e, e ∈ es →
            ∃ we, weights !! e = Some we
                  ∧ repaired we e self self' e.1 e.2
                  ∧ repaired we e self self' e.2 e.1).
Proof.
  induction es as [|e0 es IH]; intros Hnd Hone allok self r self';
    cbn [checkGraph_loop].
  - intros [= <- <-]. split; [done|]. split; [reflexivity|].
    split; [done|]. intros e He. by apply elem_of_nil in He.
  - rewrite bind_run.
    destruct (checkGraph_edge nx_shortest_path weights allok e0 self)
      as [[r1|err] s1] eqn:Hedge; [|done].
    intros Hloop. apply NoDup_cons in Hnd as [He0 Hnd].
    apply checkGraph_edge_outcome in Hedge as (we0 & Hwe0 & Hout).
    apply edge_outcome_weights in Hout as (Hg1 & Hc1 & Hf1 & Hr1 & Hr1').
    apply IH in Hloop as (Hg2 & Hc2 & Hf2 & Hr2); [|done|];
      last (intros u v Hu Hv; apply Hone; by right).
    assert (Hswap : (e0.2, e0.1) ∉ es).
    { intros Hin. destruct e0 as [u v]. simpl in *.
      assert (u = v) as -> by (apply Hone; [by left | by right]). done. }
    split; [congruence|]. split; [by etrans|]. split.
    { intros a b [Hab1 Hab2]%not_elem_of_cons [Hba1 Hba2]%not_elem_of_cons.
      rewrite Hf2 by done. apply Hf1; [done|]. destruct e0. naive_solver. }
    intros e [->|He]%elem_of_cons.
    + exists we0. split; [done|]. destruct e0 as [u v]. simpl in *. split.
      * eapply repaired_later; [done | done | | done].
        apply Hf2; [done|]. done.
      * eapply repaired_later; [done | done | | done].
        apply Hf2; [done|]. done.
    + destruct (Hr2 e He) as (we & Hwe & Hre & Hre').
      exists we. split; [done|].
      assert (Hne : e ≠ e0) by (intros ->; done).
      assert (Hne' : e ≠ (e0.2, e0.1)) by (intros ->; done).
      destruct e as [a b], e0 as [u v]. simpl in *. split.
      * eapply repaired_earlier; [done| |done]. apply Hf1; naive_solver.
      * eapply repaired_earlier; [done| |done]. apply Hf1; naive_solver.
Qed.

(** C3 (as the code has it).  After [checkGraph] has returned, for every
    edge [(u, v)] listed by [Gdist.edges()], with [w] its weight before
    the pass: if [u] and [v] are connected in the connectivity graph the
    weight is exactly 0 when [w] was not below [1e-10], and is left at
    [w] (near zero, not necessarily zero) when it was; if they are not
    connected and [w] was below [1e-10] the weight is the square of the
    distance [getDist] gave, which the cache now holds; otherwise the
    weight is left at [w]. *)
Theorem checkGraph_repairs_edges
  (self self' : DistanceGraph) (allok : bool) (u v : Minimum) :
  checkGraph nx_shortest_path self = (Ok allok, self') →
  (u, v) ∈ nx.edges (Gdist self) →
  ∃ w,
    nx.weight (Gdist self) u v = Some w
    ∧ (areConnected (graph self) u v = true → ¬ (w < 1e-10)%Q →
       nx.weight (Gdist self') u v = Some 0%Q
       ∧ nx.weight (Gdist self') v u = Some 0%Q)
    ∧ (areConnected (graph self) u v = true → (w < 1e-10)%Q →
       nx.weight (Gdist self') u v = Some w)
    ∧ (areConnected (graph self) u v = false → (w < 1e-10)%Q →
       ∃ d, _getDistNoCalc self' u v = Some d
            ∧ nx.weight (Gdist self') u v = Some (d * d)%Q
            ∧ nx.weight (Gdist self') v u = Some (d * d)%Q)
    ∧ (areConnected (graph self) u v = false → ¬ (w < 1e-10)%Q →
       nx.weight (Gdist self') u v = Some w).
Proof.
  unfold checkGraph. rewrite bind_run. unfold gets at 1.
  rewrite bind_run. unfold gets at 1.
  intros Hloop He.
  apply checkGraph_loop_weights in Hloop as (_ & _ & _ & Hrep);
    [|apply edges_facts.edges_NoDup | apply edges_facts.edges_one_way].
  destruct (Hrep (u, v) He) as (w & Hw & H1 & H2).
  rewrite edges_facts.get_edge_attributes_lookup in Hw by done.
  cbn [fst snd] in *. exists w. split; [done|].
  unfold repaired in H1, H2. cbn [fst snd] in *.
  assert (Hno : ∀ P : Prop, (w < 1e-10)%Q → (1e-10 <= w)%Q → P).
  { intros P Hlt Hle. exfalso. by apply (Qlt_not_le _ _ Hlt). }
  destruct (areConnected (graph self) u v), (Qltb w 1e-10%Q) eqn:Hz;
    [apply Qltb_lt in Hz | apply Qltb_ge in Hz
    | apply Qltb_lt in Hz | apply Qltb_ge in Hz].
  - split; [intros _ Hn; by destruct Hn|]. split; [intros _ _; congruence|].
    split; [done|]. intros ? Hn. by destruct Hn.
  - split; [done|]. split; [intros _ Hlt; by apply Hno|].
    split; [done|]. done.
  - destruct H1 as (d & Hd & Hd1). destruct H2 as (d' & Hd' & Hd2).
    assert (d' = d) as -> by congruence.
    split; [done|]. split; [done|].
    split; [intros _ _; by exists d|]. intros _ Hn. by destruct Hn.
  - split; [done|]. split; [done|].
    split; [intros _ Hlt; by apply Hno|]. intros _ _. congruence.
Qed.

End Repair.

(** C3, refuted as stated: two minima at distance [1e-6] carry the weight
    [1e-12]; once they are connected the pass finds the edge near zero
    and leaves it, so that a connected pair keeps a weight that is not 0. *)
Lemma checkGraph_leaves_small_weight :
  (checkGraph scenario.direct_path scenario.close_pair).1 = Ok true
  ∧ (2, 1) ∈ nx.edges (Gdist scenario.close_pair)
  ∧ areConnected (graph scenario.close_pair) 2 1 = true
  ∧ ∃ w, nx.weight
           (Gdist (checkGraph scenario.direct_path scenario.close_pair).2) 2 1
         = Some w
         ∧ (0 < w)%Q.
Proof.
  split; [vm_compute; reflexivity|].
  split; [vm_compute; repeat constructor|].
  split; [vm_compute; reflexivity|].
  eexists. split; [vm_compute; reflexivity|]. reflexivity.
Qed.

Lemma checkGraph_repairs_edges_witness :
  (2, 3) ∈ nx.edges (Gdist scenario.out_of_date)
  ∧ nx.weight (Gdist (checkGraph scenario.direct_path scenario.out_of_date).2)
      2 3 = Some 0%Q.
Proof.
  assert (He : (2, 3) ∈ nx.edges (Gdist scenario.out_of_date)).
  { vm_compute. repeat constructor. }
  split; [exact He|].
  destruct (checkGraph_repairs_edges scenario.direct_path scenario.out_of_date
              (checkGraph scenario.direct_path scenario.out_of_date).2
              false 2 3) as (w & Hw & Hzero & _); [vm_compute; reflexivity | exact He |].
  apply Hzero.
  - vm_compute. reflexivity.
  - assert (w = 25%Q) as ->.
    { assert (H : nx.weight (Gdist scenario.out_of_date) 2 3 = Some 25%Q)
        by (vm_compute; reflexivity).
      rewrite H in Hw. congruence. }
    intros H. vm_compute in H. discriminate.
Defined.
(** * Runs that return *)

Lemma bind_ok {A B} (m : M A) (f : A → M B) self b self' :
  (m ≫= f) self = (Ok b, self') →
  ∃ a s1, m self = (Ok a, s1) ∧ f a s1 = (Ok b, self').
Proof.
  rewrite bind_run. destruct (m self) as [[a|e] s1]; [|done].
  intros H. by exists a, s1.
Qed.

Lemma for_cons_ok {A} (x : A) l (body : A → M unit) self self' :
  for_ (x :: l) body self = (Ok tt, self') →
  ∃ s1, body x self = (Ok tt, s1) ∧ for_ l body s1 = (Ok tt, self').
Proof.
  cbn [for_]. intros H. apply bind_ok in H as ([] & s1 & H1 & H2).
  by exists s1.
Qed.

Lemma for_nil_ok {A} (body : A → M unit) self self' :
  for_ [] body self = (Ok tt, self') → self' = self.
Proof. cbn [for_]. munfold. by intros [= <-]. Qed.

(** * Further properties of the methods *)

(** ** [getDist] as a memo *)

(** X1.  A distance is computed once: after [getDist a b] has returned [d],
    asking again returns [d] from the cache, leaves the object as it is and
    makes no call to the external routine. *)
Theorem getDist_memoised (self self' : DistanceGraph) (a b : Minimum) (d : Q) :
  getDist a b self = (Ok d, self') →
  getDist a b self' = (Ok d, self').
Proof.
  intros H. apply getDist_run_hit. by eapply getDist_cached.
Qed.

Lemma getDist_memoised_witness :
  getDist 3 1 (getDist 3 1 scenario.fresh).2
  = (Ok 4%Q, (getDist 3 1 scenario.fresh).2).
Proof.
  apply (getDist_memoised scenario.fresh). vm_compute. reflexivity.
Defined.

(** X2.  When the external routine raises, [getDist] passes the exception
    on and records nothing: the cache, the buffer, the store and the
    distance graph are what they were. *)
Theorem getDist_failure_records_nothing
  (self self' : DistanceGraph) (a b : Minimum) (e : exn) :
  getDist a b self = (Raise e, self') →
  e = MindistError
  ∧ _getDistNoCalc self a b = None
  ∧ mindist self a b = None
  ∧ distance_map self' = distance_map self
  ∧ new_distances self' = new_distances self
  ∧ database self' = database self
  ∧ Gdist self' = Gdist self
  ∧ mindist_calls self' = mindist_calls self ++ [(a, b)].
Proof.
  unfold getDist. rewrite bind_run. unfold gets at 1.
  destruct (_getDistNoCalc self a b) as [d|]; munfold; [done|].
  unfold call_mindist, _setDist. munfold. proj_simpl.
  destruct (mindist self a b) as [x|] eqn:Hm; munfold; proj_simpl.
  - by destruct (defer_database_update self).
  - intros [= <- <-]. done.
Qed.

Lemma getDist_failure_records_nothing_witness :
  distance_map (getDist 5 1 scenario.admitted_123).2
  = distance_map scenario.admitted_123.
Proof.
  destruct (getDist_failure_records_nothing scenario.admitted_123
              (getDist 5 1 scenario.admitted_123).2 5 1 MindistError)
    as (_ & _ & _ & H & _); [vm_compute; reflexivity | exact H].
Defined.

(** X3.  A distance that is not cached is computed by one call to the
    external routine and stored under the key [(a, b)].  With deferred
    updates it goes to the buffer and the store is not written; without,
    it is written to the store and the buffer is not touched. *)
Theorem getDist_miss_stores
  (self : DistanceGraph) (a b : Minimum) (d : Q) :
  _getDistNoCalc self a b = None →
  mindist self a b = Some d →
  ∃ self',
    getDist a b self = (Ok d, self')
    ∧ distance_map self' = <[(a, b) := d]> (distance_map self)
    ∧ mindist_calls self' = mindist_calls self ++ [(a, b)]
    ∧ Gdist self' = Gdist self
    ∧ (if defer_database_update self
       then new_distances self' = <[(a, b) := d]> (new_distances self)
            ∧ database self' = database self
       else new_distances self' = new_distances self
            ∧ table (database self')
              = table (database self) ++ [mkDistance a b d]).
Proof.
  intros Hmiss Hm. unfold getDist. rewrite bind_run. unfold gets at 1.
  rewrite Hmiss. unfold call_mindist, _setDist. munfold. proj_simpl.
  rewrite Hm. munfold. proj_simpl.
  destruct (defer_database_update self) eqn:Hdefer;
    (eexists; split; [reflexivity|]); proj_simpl; rewrite ?Hdefer; done.
Qed.

Lemma getDist_miss_stores_witness :
  ∃ self', getDist 3 1 scenario.fresh = (Ok 4%Q, self')
           ∧ distance_map self' = <[(3, 1) := 4%Q]> (distance_map scenario.fresh).
Proof.
  destruct (getDist_miss_stores scenario.fresh 3 1 4%Q)
    as (self' & Hrun & Hdm & _); [reflexivity | reflexivity |].
  exists self'. split; [exact Hrun | exact Hdm].
Defined.

(** ** One value per unordered pair *)

Lemma cache_consistent_lookup self a b :
  cache_consistent self → _getDistNoCalc self a b = _getDistNoCalc self b a.
Proof.
  intros Hc. unfold _getDistNoCalc.
  destruct (distance_map self !! (a, b)) as [x|] eqn:E1,
    (distance_map self !! (b, a)) as [y|] eqn:E2; try done.
  f_equal. by eapply Hc.
Qed.

Lemma getDist_keeps_cache_consistent a b :
  keeps (stable cache_consistent) (getDist a b).
Proof.
  intros self Hc. unfold getDist. rewrite bind_run. unfold gets at 1.
  destruct (_getDistNoCalc self a b) as [d0|] eqn:Hd; munfold; [done|].
  unfold call_mindist, _setDist. munfold. proj_simpl.
  destruct (mindist self a b) as [x|]; munfold; proj_simpl; [|done].
  assert (Hins : ∀ s', distance_map s' = <[(a, b) := x]> (distance_map self) →
                       cache_consistent s').
  { intros s' Hs' u v p q. rewrite Hs'. unfold _getDistNoCalc in Hd.
    destruct (distance_map self !! (a, b)) eqn:E1; [done|].
    destruct (distance_map self !! (b, a)) eqn:E2; [done|].
    rewrite !lookup_insert.
    destruct (decide ((a, b) = (u, v))) as [Heq1|N1];
      destruct (decide ((a, b) = (v, u))) as [Heq2|N2]; simplify_eq;
      try congruence.
    apply Hc. }
  destruct (defer_database_update self); simpl; by apply Hins.
Qed.

(** X4.  Starting from a cache with one value per unordered pair, a
    successful [getDist a b] leaves such a cache, and the distance is then
    known in both orders: [getDist b a] returns the same [d] without
    computing anything. *)
Theorem getDist_symmetric (self self' : DistanceGraph) (a b : Minimum) (d : Q) :
  cache_consistent self →
  getDist a b self = (Ok d, self') →
  cache_consistent self'
  ∧ _getDistNoCalc self' b a = Some d
  ∧ getDist b a self' = (Ok d, self').
Proof.
  intros Hc Hrun.
  pose proof (getDist_keeps_cache_consistent a b self Hc) as Hc'.
  rewrite Hrun in Hc'. simpl in Hc'.
  assert (H : _getDistNoCalc self' b a = Some d).
  { rewrite <- cache_consistent_lookup by done. by eapply getDist_cached. }
  split; [done|]. split; [done|]. by apply getDist_run_hit.
Qed.

Lemma getDist_symmetric_witness :
  getDist 1 3 (getDist 3 1 scenario.fresh).2
  = (Ok 4%Q, (getDist 3 1 scenario.fresh).2).
Proof.
  destruct (getDist_symmetric scenario.fresh (getDist 3 1 scenario.fresh).2
              3 1 4%Q) as (_ & _ & H).
  - intros a b x y Hx. vm_compute in Hx. discriminate.
  - vm_compute. reflexivity.
  - exact H.
Defined.

(** X5.  Admission and relevance pruning, whatever their outcome, keep
    one value per unordered pair in the cache. *)
Theorem admission_keeps_cache_consistent
  (self : DistanceGraph) (m s e : Minimum) :
  cache_consistent self →
  cache_consistent (addMinimum m self).2
  ∧ cache_consistent (_addRelevantMinima s e self).2.
Proof.
  assert (Hadd : ∀ x, keeps (stable cache_consistent) (addMinimum x)).
  { intros x.
    unfold addMinimum, _addMinimum, _addMinimum_connected,
      _addMinimum_distance, setTransitionStateConnection.
    keeps_auto; try apply getDist_keeps_cache_consistent;
      intros Hold; exact Hold. }
  intros Hc. split; [by apply Hadd|].
  revert Hc. generalize self.
  change (keeps (stable cache_consistent) (_addRelevantMinima s e)).
  unfold _addRelevantMinima, _addRelevantMinima_test.
  keeps_auto; try apply getDist_keeps_cache_consistent; try apply Hadd;
    intros Hold; exact Hold.
Qed.

Lemma admission_keeps_cache_consistent_witness :
  cache_consistent (addMinimum 1 scenario.fresh).2.
Proof.
  apply (admission_keeps_cache_consistent scenario.fresh 1 1 1).
  intros a b x y Hx. vm_compute in Hx. discriminate.
Defined.

(** ** Deferred persistence *)

Lemma new_distances_length_0 (m : gmap (nat * nat) Q) :
  length (map_to_list m) = 0 ↔ m = ∅.
Proof.
  split.
  - intros H. apply map_to_list_empty_iff. by apply nil_length_inv.
  - intros ->. by rewrite map_to_list_empty.
Qed.

(** X6.  [updateDatabase] writes nothing while the buffer is empty, even
    when forced, and nothing while the buffer holds fewer than
    [db_update_min] distances unless forced: the object is left as it is. *)
Theorem updateDatabase_waits (self : DistanceGraph) (force : bool) :
  new_distances self = ∅
  ∨ (force = false
     ∧ length (map_to_list (new_distances self)) < db_update_min self) →
  updateDatabase force self = (Ok tt, self).
Proof.
  intros H. unfold updateDatabase. rewrite bind_run. unfold gets at 1.
  destruct (Nat.eqb (length (map_to_list (new_distances self))) 0) eqn:E;
    [done|].
  apply Nat.eqb_neq in E. destruct H as [H|[-> H]].
  - exfalso. apply E. by apply new_distances_length_0.
  - rewrite bind_run. unfold gets at 1.
    apply Nat.ltb_lt in H. rewrite H. done.
Qed.

Lemma updateDatabase_waits_witness :
  updateDatabase false scenario.admitted_123 = (Ok tt, scenario.admitted_123).
Proof.
  apply updateDatabase_waits. right. split; [reflexivity|].
  vm_compute. lia.
Defined.

(** X7.  With a buffer that is not empty, [updateDatabase] flushes when
    forced or when the buffer has reached [db_update_min]: every buffered
    distance becomes a row of the store, the rows already there are kept,
    the buffer is emptied, and the cache and the graph are not touched. *)
Theorem updateDatabase_flushes (self : DistanceGraph) (force : bool) :
  new_distances self ≠ ∅ →
  force = true
  ∨ db_update_min self ≤ length (map_to_list (new_distances self)) →
  ∃ self',
    updateDatabase force self = (Ok tt, self')
    ∧ new_distances self' = ∅
    ∧ (∀ a b d, new_distances self !! (a, b) = Some d →
                mkDistance a b d ∈ db.distances (database self'))
    ∧ (∀ r, r ∈ db.distances (database self) →
            r ∈ db.distances (database self'))
    ∧ distance_map self' = distance_map self
    ∧ Gdist self' = Gdist self.
Proof.
  intros Hne Hgo. unfold updateDatabase. rewrite bind_run. unfold gets at 1.
  destruct (Nat.eqb (length (map_to_list (new_distances self))) 0) eqn:E.
  { apply Nat.eqb_eq in E. by apply new_distances_length_0 in E. }
  rewrite bind_run. unfold gets at 1.
  assert (Hgo' : negb force
                 && Nat.ltb (length (map_to_list (new_distances self)))
                      (db_update_min self) = false).
  { destruct Hgo as [->|Hle]; [done|].
    apply andb_false_iff. right. apply Nat.ltb_ge. exact Hle. }
  rewrite Hgo'. munfold. proj_simpl.
  eexists. split; [reflexivity|]. proj_simpl.
  split; [done|]. unfold db.distances, db.setDistanceBulk. simpl.
  split; [|split; [|done]].
  - intros a b d Hd. apply elem_of_app. right.
    apply list_elem_of_fmap. exists ((a, b), d). split; [done|].
    by apply elem_of_map_to_list.
  - intros r Hr. apply elem_of_app. by left.
Qed.

Lemma updateDatabase_flushes_witness :
  ∃ self', updateDatabase true scenario.admitted_123 = (Ok tt, self')
           ∧ new_distances self' = ∅
           ∧ mkDistance 3 2 5 ∈ db.distances (database self').
Proof.
  destruct (updateDatabase_flushes scenario.admitted_123 true)
    as (self' & Hrun & Hempty & Hrows & _).
  - intros H. apply (f_equal (λ m, m !! (3, 2))) in H.
    vm_compute in H. discriminate.
  - by left.
  - exists self'. split; [exact Hrun|]. split; [exact Hempty|].
    apply Hrows. vm_compute. reflexivity.
Defined.

(** ** Admission *)

#[global] Instance away_from_preorder m : PreOrder (away_from m).
Proof.
  split.
  - by intros s u v _ _.
  - intros s1 s2 s3 H12 H23 u v Hu Hv. rewrite H23, H12; done.
Qed.

Lemma _addMinimum_distance_ok m x self self' :
  _addMinimum_distance m x self = (Ok tt, self') →
  (is_Some (nx.weight (Gdist self) m x) ∧ self' = self)
  ∨ (nx.weight (Gdist self) m x = None
     ∧ ∃ d sa, getDist m x self = (Ok d, sa)
               ∧ self' = with_Gdist (nx.add_edge m x (d * d)%Q) sa).
Proof.
  unfold _addMinimum_distance. rewrite bind_run. unfold gets at 1.
  unfold nx.has_edge.
  destruct (nx.weight (Gdist self) m x) as [w|] eqn:Hw; cbn [negb].
  - munfold. intros [= <-]. left. eauto.
  - intros H. apply bind_ok in H as (d & sa & Hd & H).
    munfold in H. injection H as <-. right. split; [done|].
    by exists d, sa.
Qed.

Lemma _addMinimum_connected_run m x self :
  _addMinimum_connected m x self
  = (Ok tt, if nx.has_node (Gdist self) x
            then with_Gdist (nx.add_edge m x 0%Q) self else self).
Proof.
  unfold _addMinimum_connected, setTransitionStateConnection.
  munfold. by destruct (nx.has_node (Gdist self) x).
Qed.

(** The first loop of [_addMinimum]: the members of the component that
    are nodes get a zero edge to [m], nothing else changes. *)
Lemma _addMinimum_connected_all m (l : list nat) :
  ∀ self,
    m ∈ dom (Gdist self) →
    ∃ G,
      for_ l (_addMinimum_connected m) self = (Ok tt, with_Gdist (λ _, G) self)
      ∧ dom G = dom (Gdist self)
      ∧ (∀ n, n ∈ l → n ∈ dom (Gdist self) →
              nx.weight G m n = Some 0%Q ∧ nx.weight G n m = Some 0%Q)
      ∧ (∀ a b, ¬ (a = m ∧ b ∈ l ∧ b ∈ dom (Gdist self)) →
                ¬ (b = m ∧ a ∈ l ∧ a ∈ dom (Gdist self)) →
                nx.weight G a b = nx.weight (Gdist self) a b).
Proof.
  induction l as [|x l IH]; intros self Hm.
  - exists (Gdist self). cbn [for_]. munfold.
    split; [by destruct self|]. split; [done|].
    split; [by intros n Hn; apply elem_of_nil in Hn|done].
  - cbn [for_]. rewrite bind_run, _addMinimum_connected_run.
    destruct (nx.has_node (Gdist self) x) eqn:Hx.
    + apply nx_facts.has_node_dom in Hx.
      destruct (IH (with_Gdist (nx.add_edge m x 0%Q) self)) as (G & Hrun & Hdom & Hz & Hfr).
      { proj_simpl. rewrite nx_facts.dom_add_edge. set_solver. }
      revert Hrun Hdom Hz Hfr. proj_simpl. intros Hrun Hdom Hz Hfr.
      rewrite nx_facts.dom_add_edge in Hdom.
      assert (Hd : ∀ n, n ∈ dom (nx.add_edge m x 0%Q (Gdist self))
                        ↔ n ∈ dom (Gdist self)).
      { intros n. rewrite nx_facts.dom_add_edge. set_solver. }
      exists G. split; [exact Hrun|]. split; [set_solver|]. split.
      * intros n Hn Hnd.
        destruct (decide (n ∈ l)) as [Hl|Hl].
        { apply Hz; [done|]. by apply Hd. }
        apply elem_of_cons in Hn as [->|]; [|done].
        rewrite !Hfr, !nx_facts.weight_add_edge.
        -- split; decide_cases; try done; naive_solver.
        -- naive_solver.
        -- naive_solver.
        -- naive_solver.
        -- naive_solver.
      * intros a b H1 H2. rewrite Hfr.
        -- apply nx_facts.weight_add_edge_other.
           intros [[-> ->]|[-> ->]].
           ++ apply H1. split; [done|]. split; [left|done].
           ++ apply H2. split; [done|]. split; [left|done].
        -- intros (-> & Hb & Hbd). apply H1. split; [done|].
           split; [by right|]. by apply Hd.
        -- intros (-> & Ha & Had). apply H2. split; [done|].
           split; [by right|]. by apply Hd.
    + apply not_true_iff_false in Hx. rewrite nx_facts.has_node_dom in Hx.
      destruct (IH self Hm) as (G & Hrun & Hdom & Hz & Hfr).
      exists G. split; [exact Hrun|]. split; [done|]. split.
      * intros n Hn Hnd. apply Hz; [|done].
        apply elem_of_cons in Hn as [->|]; done.
      * intros a b H1 H2. apply Hfr.
        -- intros (-> & Hb & Hbd). apply H1. split; [done|]. split; [by right|done].
        -- intros (-> & Ha & Had). apply H2. split; [done|]. split; [by right|done].
Qed.

(** The second loop of [_addMinimum], when it returns: an edge that [m]
    already has is kept, a missing one to a node of the list is created
    with the squared distance. *)
Lemma _addMinimum_distance_all m (l : list nat) :
  ∀ self self',
    m ∈ dom (Gdist self) →
    (∀ n, n ∈ l → n ∈ dom (Gdist self)) →
    for_ l (_addMinimum_distance m) self = (Ok tt, self') →
    dom (Gdist self') = dom (Gdist self)
    ∧ cache_grows self self'
    ∧ (∀ n, is_Some (nx.weight (Gdist self) m n) →
            nx.weight (Gdist self') m n = nx.weight (Gdist self) m n
            ∧ nx.weight (Gdist self') n m = nx.weight (Gdist self) n m)
    ∧ (∀ n, n ∈ l → nx.weight (Gdist self) m n = None →
            ∃ d, _getDistNoCalc self' m n = Some d
                 ∧ nx.weight (Gdist self') m n = Some (d * d)%Q
                 ∧ nx.weight (Gdist self') n m = Some (d * d)%Q).
Proof.
  induction l as [|x l IH]; intros self self' Hm Hl Hrun.
  - apply for_nil_ok in Hrun as ->.
    split; [done|]. split; [reflexivity|]. split; [done|].
    by intros n Hn; apply elem_of_nil in Hn.
  - apply for_cons_ok in Hrun as (s1 & Hx & Hrun).
    apply _addMinimum_distance_ok in Hx as [[Hw ->]|(Hw & d & sa & Hd & ->)].
    + destruct (IH self self' Hm) as (Hdom & Hc & Hkeep & Hnew); [|done|].
      { intros n Hn. apply Hl. by right. }
      split; [done|]. split; [done|]. split; [done|].
      intros n Hn Hnone. apply Hnew; [|done].
      apply elem_of_cons in Hn as [->|]; [|done].
      rewrite Hnone in Hw. by destruct Hw.
    + pose proof (getDist_keeps_Gdist m x self) as HG.
      pose proof (getDist_keeps_cache m x self) as Hc0.
      rewrite Hd in HG, Hc0. cbn [snd] in HG, Hc0. unfold unchanged in HG.
      assert (Hdx : dom (nx.add_edge m x (d * d)%Q (Gdist sa))
                    = dom (Gdist self)).
      { rewrite nx_facts.dom_add_edge, HG.
        assert (x ∈ dom (Gdist self)) by (apply Hl; by left). set_solver. }
      destruct (IH (with_Gdist (nx.add_edge m x (d * d)%Q) sa) self')
        as (Hdom & Hc & Hkeep & Hnew); [| |done|].
      { proj_simpl. by rewrite Hdx. }
      { intros n Hn. proj_simpl. rewrite Hdx. apply Hl. by right. }
      revert Hdom Hc Hkeep Hnew. proj_simpl. intros Hdom Hc Hkeep Hnew.
      assert (Hc1 : cache_grows self self').
      { intros a b v Hv. apply Hc. unfold _getDistNoCalc. proj_simpl.
        by apply Hc0. }
      split; [by rewrite Hdom|]. split; [done|]. split.
      * intros n [w Hwn].
        assert (n ≠ x) by (intros ->; congruence).
        assert (Hsame : nx.weight (nx.add_edge m x (d * d)%Q (Gdist sa)) m n
                        = nx.weight (Gdist self) m n
                        ∧ nx.weight (nx.add_edge m x (d * d)%Q (Gdist sa)) n m
                          = nx.weight (Gdist self) n m).
        { rewrite !nx_facts.weight_add_edge_other, HG; [done|naive_solver..]. }
        destruct Hsame as [E1 E2]. rewrite <- E1, <- E2.
        apply Hkeep. rewrite E1, Hwn. eauto.
      * intros n Hn Hnone.
        destruct (decide (n = x)) as [->|Hne].
        -- exists d. split.
           { apply Hc. unfold _getDistNoCalc. proj_simpl.
             by eapply getDist_cached. }
           destruct (Hkeep x) as [E1 E2].
           { rewrite nx_facts.weight_add_edge_same. eauto. }
           rewrite E1, E2, !nx_facts.weight_add_edge.
           split; decide_cases; try done; naive_solver.
        -- apply elem_of_cons in Hn as [->|Hn]; [done|].
           apply Hnew; [done|].
           rewrite nx_facts.weight_add_edge_other, HG; [done|naive_solver].
Qed.

(** X8.  A successful admission of a minimum that was not yet a node joins
    it to every node of the distance graph, itself included: with weight
    zero to the nodes of its connected component in the transition-state
    graph, with the squared cached distance to every other node.  No node
    but [m] is added. *)
Theorem addMinimum_joins_every_node
  (self self' : DistanceGraph) (m : Minimum) :
  m ∉ dom (Gdist self) →
  addMinimum m self = (Ok tt, self') →
  ∃ cc,
    nx.node_connected_component (graph self) m = Some cc
    ∧ dom (Gdist self') = {[m]} ∪ dom (Gdist self)
    ∧ ∀ n, n ∈ dom (Gdist self') →
           if decide (n ∈ cc)
           then nx.weight (Gdist self') m n = Some 0%Q
                ∧ nx.weight (Gdist self') n m = Some 0%Q
           else ∃ d, _getDistNoCalc self' m n = Some d
                     ∧ nx.weight (Gdist self') m n = Some (d * d)%Q
                     ∧ nx.weight (Gdist self') n m = Some (d * d)%Q.
Proof.
  intros Hm. rewrite addMinimum_run.
  destruct (nx.has_node (Gdist self) m) eqn:Hn.
  { apply nx_facts.has_node_dom in Hn. done. }
  destruct (_addMinimum m (with_database db.begin self)) as [[[]|e] s3] eqn:Hrun;
    [|done].
  intros [= <-].
  unfold _addMinimum in Hrun.
  apply bind_ok in Hrun as ([] & s1 & H1 & Hrun).
  munfold in H1. injection H1 as <-.
  apply bind_ok in Hrun as (cc & s1' & Hcc & Hrun).
  revert Hcc. proj_simpl.
  destruct (nx.node_connected_component (graph self) m) as [cc'|] eqn:Hcc;
    munfold; [|done].
  intros [= <- <-].
  apply bind_ok in Hrun as ([] & s2 & H2 & Hrun).
  apply bind_ok in Hrun as (nodes & s2' & Hnodes & Hrun).
  munfold in Hnodes. injection Hnodes as <- <-.
  set (s1 := with_Gdist (nx.add_node m) (with_database db.begin self)) in *.
  assert (Hm1 : m ∈ dom (Gdist s1)).
  { unfold s1. proj_simpl. rewrite nx_facts.dom_add_node. set_solver. }
  destruct (_addMinimum_connected_all m (elements cc') s1 Hm1)
    as (G & Hrun1 & Hdom1 & Hzero & Hframe).
  rewrite Hrun1 in H2. injection H2 as <-.
  apply _addMinimum_distance_all in Hrun; proj_simpl.
  - destruct Hrun as (Hdom & Hc & Hkeep & Hnew). revert Hdom Hc Hkeep Hnew.
    proj_simpl. intros Hdom Hc Hkeep Hnew.
    assert (HD : dom G = {[m]} ∪ dom (Gdist self)).
    { rewrite Hdom1. unfold s1. proj_simpl. apply nx_facts.dom_add_node. }
    exists cc'. split; [done|]. split; [by rewrite Hdom|].
    intros n Hnd. rewrite Hdom in Hnd.
    destruct (decide (n ∈ cc')) as [Hin|Hout].
    + destruct (Hzero n) as [E1 E2].
      { by apply elem_of_elements. }
      { by rewrite <- Hdom1. }
      destruct (Hkeep n) as [K1 K2]; [rewrite E1; eauto|].
      by rewrite K1, K2.
    + destruct (Hnew n) as (d & Hd & E1 & E2).
      { by apply nx_facts.nodes_dom. }
      { rewrite Hframe.
        - unfold s1. proj_simpl. rewrite nx_facts.weight_add_node.
          destruct (nx.weight (Gdist self) m n) as [w|] eqn:Hw; [|done].
          apply nx_facts.weight_has_node in Hw. done.
        - intros (_ & Hb & _). by apply elem_of_elements in Hb.
        - intros (-> & Ha & _). by apply elem_of_elements in Ha. }
      exists d. split; [|done].
      revert Hd. unfold _getDistNoCalc. by proj_simpl.
  - by rewrite Hdom1.
  - intros n Hnn. by apply nx_facts.nodes_dom in Hnn.
Qed.

Lemma addMinimum_joins_every_node_witness :
  ∃ cc,
    nx.node_connected_component (graph scenario.admitted_12) 3 = Some cc
    ∧ dom (Gdist (addMinimum 3 scenario.admitted_12).2)
      = {[3]} ∪ dom (Gdist scenario.admitted_12).
Proof.
  destruct (addMinimum_joins_every_node scenario.admitted_12
              (addMinimum 3 scenario.admitted_12).2 3)
    as (cc & Hcc & Hdom & _).
  - intros H. apply elem_of_dom in H. vm_compute in H.
    by destruct H.
  - vm_compute. reflexivity.
  - exists cc. split; [exact Hcc | exact Hdom].
Defined.

(** X9.  Admitting a minimum that is already a node does nothing but open
    and commit a transaction: no distance is computed, and the graph, the
    cache, the buffer and the rows of the store are left as they are. *)
Theorem addMinimum_admitted_unchanged (self : DistanceGraph) (m : Minimum) :
  m ∈ dom (Gdist self) →
  ∃ self',
    addMinimum m self = (Ok tt, self')
    ∧ Gdist self' = Gdist self
    ∧ distance_map self' = distance_map self
    ∧ new_distances self' = new_distances self
    ∧ mindist_calls self' = mindist_calls self
    ∧ table (database self') = table (database self)
    ∧ tx_log (database self') = tx_log (database self) ++ [TxBegin; TxCommit].
Proof.
  intros Hm. rewrite addMinimum_run.
  apply nx_facts.has_node_dom in Hm. rewrite Hm.
  eexists. split; [reflexivity|]. proj_simpl. simpl.
  by rewrite <- app_assoc.
Qed.

Lemma addMinimum_admitted_unchanged_witness :
  ∃ self', addMinimum 3 scenario.admitted_123 = (Ok tt, self')
           ∧ Gdist self' = Gdist scenario.admitted_123.
Proof.
  destruct (addMinimum_admitted_unchanged scenario.admitted_123 3)
    as (self' & Hrun & HG & _).
  - apply elem_of_dom. vm_compute. eauto.
  - exists self'. split; [exact Hrun | exact HG].
Defined.

(** X10.  Whether it returns or raises, an admission of [m] leaves every
    edge that does not touch [m] as it was. *)
Theorem addMinimum_leaves_other_edges
  (self : DistanceGraph) (m u v : Minimum) :
  u ≠ m → v ≠ m →
  nx.weight (Gdist (addMinimum m self).2) u v = nx.weight (Gdist self) u v.
Proof.
  revert u v. change (away_from m self (addMinimum m self).2).
  revert self. change (keeps (away_from m) (addMinimum m)).
  assert (Hget : ∀ a b, keeps (away_from m) (getDist a b)).
  { intros a b self u v _ _. by rewrite (getDist_keeps_Gdist a b self). }
  assert (Hedge : ∀ x w self,
            away_from m self (with_Gdist (nx.add_edge m x w) self)).
  { intros x w self u v Hu Hv. proj_simpl.
    apply nx_facts.weight_add_edge_other. naive_solver. }
  unfold addMinimum, _addMinimum, _addMinimum_connected,
    _addMinimum_distance, setTransitionStateConnection.
  keeps_auto; try (by intros ? ? ? ?); try apply Hedge.
  intros u v _ _. proj_simpl. apply nx_facts.weight_add_node.
Qed.

Lemma addMinimum_leaves_other_edges_witness :
  nx.weight (Gdist (addMinimum 3 scenario.admitted_12).2) 1 2
  = nx.weight (Gdist scenario.admitted_12) 1 2.
Proof.
  apply addMinimum_leaves_other_edges; lia.
Defined.
